(** * advent-podcast: the episode-resolution core of [server.js]

    A shallow embedding of the token-gated, time-released podcast server:
    the filename parser and metadata resolver ([getEpisodeDetails],
    [parseDuration]), the release gate ([shouldReleaseEpisode]) and the three
    request handlers ([/audio], [/feed.xml], [/episodes]) of both revisions
    of [server.js], the asset manifest ([getGlitchAssets]) and the file-type
    table ([getAudioFileType]), followed by the properties the specification
    states about them and by further properties of the code.

    Conventions.
    - File names and metadata strings are [string]s of ASCII characters.
    - The wall clock, the local time of the host (its time zone, with the
      changes of offset), the engine's sort, the audio directory, the
      metadata file and the request are explicit inputs ([Env], [Request]);
      a handler is a function from them to the [Response] it sends. The
      clock does not advance while one request is handled.
    - A JavaScript exception is the [Throw] outcome of a [result].
    - Numbers are followed as far as they are safe integers or NaN. *)

From Stdlib Require Import ZArith List String Ascii Bool Lia Sorted Permutation.
Import ListNotations.

#[local] Set Warnings "-register-all".

Local Open Scope string_scope.
Local Open Scope Z_scope.

(** ** The JavaScript runtime, as far as the server uses it *)

Module Js.

(** *** Outcomes *)

Inductive error : Type :=
| TypeError     (* a property read on undefined or null, a call of a non-function *)
| SystemError.  (* a rejected file-system call, such as ENOENT *)

Inductive result (A : Type) : Type :=
| Return (a : A)
| Throw (e : error).

Arguments Return {A} a.
Arguments Throw {A} e.

Definition bind {A B : Type} (m : result A) (k : A -> result B) : result B :=
  match m with
  | Return a => k a
  | Throw e => Throw e
  end.

Notation "x <- m ;; k" := (bind m (fun x => k))
  (at level 61, m at next level, right associativity).

(** [mapM f l] runs [f] over [l] from left to right and stops at the first
    exception, as [Array.prototype.map] and a [for ... of] loop do. *)
Fixpoint mapM {A B : Type} (f : A -> result B) (l : list A) : result (list B) :=
  match l with
  | [] => Return []
  | a :: l' => b <- f a ;; bs <- mapM f l' ;; Return (b :: bs)
  end.

(** [collectM f l] is the loop [for (const a of l) { ... }] whose body
    either adds an item ([Some]), skips the element ([None]) or throws. *)
Fixpoint collectM {A B : Type} (f : A -> result (option B)) (l : list A)
  : result (list B) :=
  match l with
  | [] => Return []
  | a :: l' =>
      o <- f a ;;
      bs <- collectM f l' ;;
      Return (match o with Some b => b :: bs | None => bs end)
  end.

(** *** Characters and strings *)

Definition isDigit (c : ascii) : bool :=
  let n := N_of_ascii c in ((48 <=? n) && (n <=? 57))%N.

Definition isUpper (c : ascii) : bool :=
  let n := N_of_ascii c in ((65 <=? n) && (n <=? 90))%N.

Definition lowerChar (c : ascii) : ascii :=
  if isUpper c then ascii_of_N (N_of_ascii c + 32) else c.

Fixpoint mapChars (f : ascii -> ascii) (s : string) : string :=
  match s with
  | EmptyString => EmptyString
  | String c s' => String (f c) (mapChars f s')
  end.

(** [String.prototype.toLowerCase] on ASCII text. *)
Definition toLowerCase (s : string) : string := mapChars lowerChar s.

(** [s.replace(/c/g, d)] for single characters [c] and [d]. *)
Definition replaceAllChar (c d : ascii) (s : string) : string :=
  mapChars (fun x => if Ascii.eqb x c then d else x) s.

(** [s.split(c)] for a one-character separator: never empty, one more
    segment than there are separators. *)
Fixpoint split (c : ascii) (s : string) : list string :=
  match s with
  | EmptyString => [EmptyString]
  | String a s' =>
      if Ascii.eqb a c then EmptyString :: split c s'
      else match split c s' with
           | h :: t => String a h :: t
           | [] => [String a EmptyString]
           end
  end.

(** [a.pop()] read as an expression: the last element. *)
Definition pop (l : list string) : string := last l EmptyString.

(** [stripSuffix suf s] is [Some p] exactly when [s = p ++ suf]. *)
Fixpoint stripSuffix (suf s : string) : option string :=
  if String.eqb s suf then Some EmptyString
  else match s with
       | EmptyString => None
       | String c s' =>
           match stripSuffix suf s' with
           | Some p => Some (String c p)
           | None => None
           end
       end.

(** [s.endsWith(suf)]. *)
Definition endsWith (s suf : string) : bool :=
  match stripSuffix suf s with
  | Some _ => true
  | None => false
  end.

(** Anchored patterns made of character classes, enough for the two date
    regular expressions of the server. *)
Inductive cls : Type :=
| Digit            (* \d *)
| Lit (c : ascii). (* the character itself *)

Definition clsMatches (k : cls) (c : ascii) : bool :=
  match k with
  | Digit => isDigit c
  | Lit d => Ascii.eqb c d
  end.

(** [matchPrefix p s]: the text matched by [^p] at the start of [s] and the
    text that follows it. *)
Fixpoint matchPrefix (p : list cls) (s : string) : option (string * string) :=
  match p with
  | [] => Some (EmptyString, s)
  | k :: p' =>
      match s with
      | EmptyString => None
      | String c s' =>
          if clsMatches k c then
            match matchPrefix p' s' with
            | Some (m, rest) => Some (String c m, rest)
            | None => None
            end
          else None
      end
  end.

(** *** Numbers

    JavaScript numbers are binary64 doubles. The model follows the safe
    integers (magnitude below 2^53, on which double arithmetic is exact) and
    NaN; [Other] stands for a double whose value the model does not follow
    (a fraction, an infinity, an integer beyond the safe range, or what
    arithmetic makes of such values). The sign of zero is not followed. *)

Inductive number : Type :=
| Int (z : Z)
| NaN
| Other.

Definition maxSafe : Z := 2 ^ 53 - 1.

Definition safe (z : Z) : number :=
  if (Z.abs z <=? maxSafe) then Int z else Other.

Definition mul (a b : number) : number :=
  match a, b with
  | NaN, _ | _, NaN => NaN
  | Int x, Int y => safe (x * y)
  | _, _ => Other
  end.

Definition add (a b : number) : number :=
  match a, b with
  | NaN, _ | _, NaN => NaN
  | Int x, Int y => safe (x + y)
  | _, _ => Other
  end.

(** White space that [Number] trims, in ASCII: TAB, LF, VT, FF, CR, SP. *)
Definition isSpace (c : ascii) : bool :=
  let n := N_of_ascii c in (((9 <=? n) && (n <=? 13)) || (n =? 32))%N.

Fixpoint trimStart (s : string) : string :=
  match s with
  | EmptyString => EmptyString
  | String c s' => if isSpace c then trimStart s' else s
  end.

Fixpoint trimEnd (s : string) : string :=
  match s with
  | EmptyString => EmptyString
  | String c s' =>
      match trimEnd s' with
      | EmptyString => if isSpace c then EmptyString else String c EmptyString
      | t => String c t
      end
  end.

Definition trim (s : string) : string := trimEnd (trimStart s).

Fixpoint allChars (p : ascii -> bool) (s : string) : bool :=
  match s with
  | EmptyString => true
  | String c s' => p c && allChars p s'
  end.

(** Value of a string of decimal digits, most significant first. *)
Fixpoint digitsValue (acc : Z) (s : string) : Z :=
  match s with
  | EmptyString => acc
  | String c s' => digitsValue (10 * acc + (Z.of_N (N_of_ascii c) - 48)) s'
  end.

Definition isAscii (c : ascii) : bool := (N_of_ascii c <? 128)%N.

Definition isHexDigit (c : ascii) : bool :=
  isDigit c || existsb (Ascii.eqb c) (list_ascii_of_string "abcdefABCDEF").

Definition isOctalDigit (c : ascii) : bool :=
  let n := N_of_ascii c in ((48 <=? n) && (n <=? 55))%N.

Definition isBinaryDigit (c : ascii) : bool :=
  Ascii.eqb c "0" || Ascii.eqb c "1".

Definition isSign (c : ascii) : bool := Ascii.eqb c "+" || Ascii.eqb c "-".

(** The value of a digit of a radix up to 16. *)
Definition digitValue (c : ascii) : Z :=
  let n := Z.of_N (N_of_ascii c) in
  if isDigit c then n - 48
  else if 97 <=? n then n - 87
  else n - 55.

(** Value of a string of digits of radix [radix], most significant first. *)
Fixpoint radixValue (radix acc : Z) (s : string) : Z :=
  match s with
  | EmptyString => acc
  | String c s' => radixValue radix (radix * acc + digitValue c) s'
  end.

(** The longest run of decimal digits at the start of [s], and what
    follows it. *)
Fixpoint spanDigits (s : string) : string * string :=
  match s with
  | EmptyString => (EmptyString, EmptyString)
  | String c s' =>
      if isDigit c then
        let (d, r) := spanDigits s' in (String c d, r)
      else (EmptyString, s)
  end.

(** The productions of StringNumericLiteral, the grammar [Number] reads a
    string by. DecimalDigits: *)
Definition isDecimalDigits (s : string) : bool :=
  negb (String.eqb s EmptyString) && allChars isDigit s.

(** SignedInteger. *)
Definition isSignedInteger (s : string) : bool :=
  match s with
  | EmptyString => false
  | String c s' => if isSign c then isDecimalDigits s' else isDecimalDigits s
  end.

(** ExponentPart, or nothing. *)
Definition isExponentPartOpt (s : string) : bool :=
  match s with
  | EmptyString => true
  | String c s' => (Ascii.eqb c "e" || Ascii.eqb c "E") && isSignedInteger s'
  end.

(** StrUnsignedDecimalLiteral: [Infinity], digits with an optional
    fraction, or a fraction alone, each with an optional exponent. *)
Definition isUnsignedDecimalLiteral (s : string) : bool :=
  String.eqb s "Infinity" ||
  (let (intPart, r) := spanDigits s in
   match r with
   | EmptyString => negb (String.eqb intPart EmptyString)
   | String c r' =>
       if Ascii.eqb c "." then
         let (fraction, r'') := spanDigits r' in
         (negb (String.eqb intPart EmptyString) ||
          negb (String.eqb fraction EmptyString)) &&
         isExponentPartOpt r''
       else negb (String.eqb intPart EmptyString) && isExponentPartOpt r
   end).

(** StrDecimalLiteral: an optional sign and a StrUnsignedDecimalLiteral. *)
Definition isDecimalLiteral (s : string) : bool :=
  match s with
  | EmptyString => false
  | String c s' =>
      if isSign c then isUnsignedDecimalLiteral s'
      else isUnsignedDecimalLiteral s
  end.

(** NonDecimalIntegerLiteral: the radix of a literal [0x..], [0o..] or
    [0b..] (either case), which takes no sign. *)
Definition nonDecimalRadix (s : string) : option Z :=
  match s with
  | String z (String x ds) =>
      if Ascii.eqb z "0" && negb (String.eqb ds EmptyString) then
        if (Ascii.eqb x "x" || Ascii.eqb x "X") && allChars isHexDigit ds
        then Some 16
        else if (Ascii.eqb x "o" || Ascii.eqb x "O") && allChars isOctalDigit ds
        then Some 8
        else if (Ascii.eqb x "b" || Ascii.eqb x "B") && allChars isBinaryDigit ds
        then Some 2
        else None
      else None
  | _ => None
  end.

(** StrNumericLiteral. *)
Definition isNumericLiteral (s : string) : bool :=
  isDecimalLiteral s ||
  match nonDecimalRadix s with
  | Some _ => true
  | None => false
  end.

(** The value of a StrDecimalLiteral that is an integer written with
    digits alone, signed or not; [Other] for a literal with a fraction or an
    exponent and for [Infinity]. *)
Definition decimalValue (s : string) : number :=
  match s with
  | EmptyString => Other
  | String c s' =>
      if isSign c then
        if isDecimalDigits s' then
          safe (if Ascii.eqb c "-" then - digitsValue 0 s' else digitsValue 0 s')
        else Other
      else if isDecimalDigits s then safe (digitsValue 0 s)
      else Other
  end.

(** [Number(s)], the string-to-number conversion of a string of ASCII
    characters: white space is trimmed; empty text converts to 0, text that
    is no StrNumericLiteral to NaN, an integer literal of either kind to its
    value. Text with characters beyond ASCII is left as [Other]. *)
Definition Number (s : string) : number :=
  if negb (allChars isAscii s) then Other
  else
    let t := trim s in
    if String.eqb t EmptyString then Int 0
    else
      match nonDecimalRadix t with
      | Some radix =>
          safe (radixValue radix 0 (substring 2 (String.length t - 2) t))
      | None => if isDecimalLiteral t then decimalValue t else NaN
      end.

(** *** Values

    What [yaml.load] hands over and what the handlers put into responses.
    An object is its list of own properties in insertion order. *)

Inductive JsValue : Type :=
| JUndefined
| JNull
| JBool (b : bool)
| JNum (n : number)
| JStr (s : string)
| JArr (l : list JsValue)
| JObj (props : list (string * JsValue)).

(** ToBoolean. A number a document holds as [Other] is a fraction or an
    infinity, hence truthy. *)
Definition truthy (v : JsValue) : bool :=
  match v with
  | JUndefined | JNull => false
  | JBool b => b
  | JNum (Int z) => negb (z =? 0)
  | JNum NaN => false
  | JNum Other => true
  | JStr s => negb (String.eqb s EmptyString)
  | JArr _ | JObj _ => true
  end.

(** [a || b]. *)
Definition orElse (a b : JsValue) : JsValue := if truthy a then a else b.

Fixpoint lookup {A : Type} (k : string) (l : list (string * A)) : option A :=
  match l with
  | [] => None
  | (k', v) :: l' => if String.eqb k' k then Some v else lookup k l'
  end.

(** An array index written canonically: ["0"], or digits with no leading
    zero. *)
Definition arrayIndex (k : string) : option nat :=
  match k with
  | EmptyString => None
  | String c rest =>
      if allChars isDigit k &&
         (negb (Ascii.eqb c "0") || String.eqb rest EmptyString)
      then Some (Z.to_nat (digitsValue 0 k))
      else None
  end.

(** [v[k]] on a value that is neither undefined nor null. Own data
    properties only: the inherited ones are methods, which no document holds
    and the server never reads as data, so they read as [JUndefined]. *)
Definition getField (v : JsValue) (k : string) : JsValue :=
  match v with
  | JObj props =>
      match lookup k props with
      | Some x => x
      | None => JUndefined
      end
  | JArr l =>
      if String.eqb k "length" then JNum (Int (Z.of_nat (List.length l)))
      else match arrayIndex k with
           | Some i => nth i l JUndefined
           | None => JUndefined
           end
  | JStr s =>
      if String.eqb k "length" then JNum (Int (Z.of_nat (String.length s)))
      else match arrayIndex k with
           | Some i =>
               match String.get i s with
               | Some c => JStr (String c EmptyString)
               | None => JUndefined
               end
           | None => JUndefined
           end
  | _ => JUndefined
  end.

(** [v[k]] in general: reading a property of undefined or null throws. *)
Definition getProp (v : JsValue) (k : string) : result JsValue :=
  match v with
  | JUndefined | JNull => Throw TypeError
  | _ => Return (getField v k)
  end.

(** *** Dates

    A [Date] object is its time value: milliseconds since the epoch in UTC,
    or NaN for an invalid date. *)

Inductive Date : Type :=
| TimeValue (t : Z)
| InvalidDate.

Definition msPerDay : Z := 86400000.

Definition isLeapYear (y : Z) : bool :=
  ((y mod 4 =? 0) && negb (y mod 100 =? 0)) || (y mod 400 =? 0).

(** DayFromYear of ECMAScript: the day number of 1 January of year [y]. *)
Definition DayFromYear (y : Z) : Z :=
  365 * (y - 1970) + (y - 1969) / 4 - (y - 1901) / 100 + (y - 1601) / 400.

(** Days of the year that precede month [m] (1..12). *)
Definition daysBeforeMonth (y m : Z) : Z :=
  nth (Z.to_nat (m - 1)) [0; 31; 59; 90; 120; 151; 181; 212; 243; 273; 304; 334] 0
  + (if isLeapYear y && (2 <? m) then 1 else 0).

(** MakeDay: the day number of year [y], month [m] (1..12), day [d]. A day
    beyond the end of the month runs on into the following one. *)
Definition MakeDay (y m d : Z) : Z :=
  DayFromYear y + daysBeforeMonth y m + d - 1.

Definition dateRe : list cls :=
  [Digit; Digit; Digit; Digit; Lit "-"; Digit; Digit; Lit "-"; Digit; Digit].

(** [new Date(s)] for a date-only text [YYYY-MM-DD], the one form the server
    builds dates from: midnight UTC of that day. Node's parser takes months
    1..12 and days 1..31 and answers an invalid date otherwise; it does not
    compare the day with the length of the month, [MakeDay] carries the
    excess over. *)
Definition newDate (s : string) : Date :=
  match matchPrefix dateRe s with
  | Some (_, EmptyString) =>
      let y := digitsValue 0 (substring 0 4 s) in
      let m := digitsValue 0 (substring 5 2 s) in
      let d := digitsValue 0 (substring 8 2 s) in
      if (1 <=? m) && (m <=? 12) && (1 <=? d) && (d <=? 31)
      then TimeValue (MakeDay y m d * msPerDay)
      else InvalidDate
  | _ => InvalidDate
  end.

(** [a <= b] on two dates: a comparison with NaN is false. *)
Definition dateLe (a b : Date) : bool :=
  match a, b with
  | TimeValue x, TimeValue y => x <=? y
  | _, _ => false
  end.

(** Local time. [LocalTZA(t, isUTC)] of ECMAScript, the offset of local
    time from UTC in milliseconds, is the host's: it follows the time zone
    the process runs in, with its changes of offset (daylight saving time).
    [ofUTC t] is [LocalTZA(t, true)], the offset in force at the instant
    [t]; [ofLocal t] is [LocalTZA(t, false)], the offset the host takes for
    the local time [t] (where a change of offset repeats or skips a local
    time, the offset before the change). *)
Record LocalTZA : Type := {
  ofUTC : Z -> Z;
  ofLocal : Z -> Z
}.

(** [LocalTime(t)], [UTC(t)] and [Day(t)] of ECMAScript. *)
Definition LocalTime (tza : LocalTZA) (t : Z) : Z := t + ofUTC tza t.

Definition UTC (tza : LocalTZA) (t : Z) : Z := t - ofLocal tza t.

Definition Day (t : Z) : Z := t / msPerDay.

(** [d.setHours(0, 0, 0, 0)] on the valid date of time value [t]:
    [UTC(MakeDate(Day(LocalTime(t)), MakeTime(0, 0, 0, 0)))], the instant
    the host takes for 00:00:00.000 of the local day of [t]. *)
Definition setHours0 (tza : LocalTZA) (t : Z) : Z :=
  UTC tza (Day (LocalTime tza t) * msPerDay).

(** A time zone that never changes its offset. *)
Definition fixedOffset (offset : Z) : LocalTZA :=
  {| ofUTC := fun _ => offset; ofLocal := fun _ => offset |}.

(** ToNumber of [d || 0] for an optional date [d]. *)
Definition dateOrZero (d : option Date) : number :=
  match d with
  | None => Int 0
  | Some (TimeValue t) => Int t
  | Some InvalidDate => NaN
  end.

(** [a - b]. The time values of two dates with four-digit years differ by
    a safe integer. *)
Definition sub (a b : number) : number :=
  match a, b with
  | NaN, _ | _, NaN => NaN
  | Int x, Int y => safe (x - y)
  | _, _ => Other
  end.

Definition isNegative (n : number) : bool :=
  match n with
  | Int z => z <? 0
  | _ => false
  end.

(** *** Sorting

    [Array.prototype.sort] is the engine's. It is stable, so for a
    consistent comparator every engine gives the same array, computed here
    by insertion ([sort]); for a comparator that is not consistent (that of
    the server is not when a date is invalid: its result is NaN) the order
    is the engine's choice, and all that is known of the result is that it
    holds the same elements. *)

Section Sort.
Context {A : Type} (cmp : A -> A -> number).

(** [insert x l]: [x], which came before every element of [l], goes in
    front of the first element that does not sort strictly before it. *)
Fixpoint insert (x : A) (l : list A) : list A :=
  match l with
  | [] => [x]
  | y :: l' => if isNegative (cmp y x) then y :: insert x l' else x :: l
  end.

Definition sort (l : list A) : list A := fold_right insert [] l.

(** The comparator is consistent on the elements of [l]: its results are
    numbers that order the elements as some ranking of them does. *)
Definition consistent (l : list A) : Prop :=
  exists rank : A -> Z,
    forall a b, In a l -> In b l ->
      exists z, cmp a b = Int z /\ Z.sgn z = Z.sgn (rank a - rank b).

End Sort.

(** An engine: its [Array.prototype.sort], which rearranges the array and,
    for a consistent comparator, sorts it stably. *)
Record Engine : Type := {
  arraySort : forall A : Type, (A -> A -> number) -> list A -> list A;
  arraySort_rearranges :
    forall (A : Type) (cmp : A -> A -> number) (l : list A),
      Permutation l (arraySort A cmp l);
  arraySort_consistent :
    forall (A : Type) (cmp : A -> A -> number) (l : list A),
      consistent cmp l -> arraySort A cmp l = sort cmp l
}.

Arguments arraySort e {A} cmp l.

#[local] Obligation Tactic := idtac.

(** An engine that sorts by insertion whatever the comparator. *)
Program Definition insertionSort : Engine := {| arraySort := @sort |}.
Next Obligation.
  intros A cmp l. unfold sort.
  induction l as [| x l IH]; simpl; [ constructor | ].
  apply Permutation_trans with (x :: fold_right (insert cmp) [] l);
    [ now constructor | ].
  clear IH. induction (fold_right (insert cmp) [] l) as [| y l' IH]; simpl.
  - apply Permutation_refl.
  - destruct (isNegative (cmp y x)); [ | apply Permutation_refl ].
    apply Permutation_trans with (y :: x :: l'); [ constructor | ].
    now constructor.
Qed.
Next Obligation.
  reflexivity.
Qed.

End Js.

(** ** The server: what both revisions of [server.js] share *)

Module Server.
Import Js.

Definition SUPPORTED_FORMATS : list (string * string) :=
  [ ("mp3", "audio/mpeg");
    ("m4a", "audio/mp4");
    ("opus", "audio/opus");
    ("ogg", "audio/ogg");
    ("mka", "audio/x-matroska") ].

(** [SUPPORTED_FORMATS.hasOwnProperty(ext)]. *)
Definition hasOwnProperty {A : Type} (o : list (string * A)) (k : string) : bool :=
  match lookup k o with
  | Some _ => true
  | None => false
  end.

(** [file.toLowerCase().split('.').pop()]. *)
Definition extensionOf (file : string) : string :=
  pop (split "." (toLowerCase file)).

(** The filter of the feed: the extension is a key of [SUPPORTED_FORMATS]. *)
Definition isSupported (file : string) : bool :=
  hasOwnProperty SUPPORTED_FORMATS (extensionOf file).

Definition emptyMetadata : JsValue :=
  JObj [("episodes", JObj []); ("podcast", JObj [])].

(** [loadMetadata]. [source] is what reading and parsing the metadata file
    gave: [None] when the file is missing or is not YAML, else the value of
    [yaml.load]. The parsed value is returned as it is. *)
Definition loadMetadata (source : option JsValue) : JsValue :=
  match source with
  | Some parsed => orElse parsed emptyMetadata
  | None => emptyMetadata
  end.

(** [parseDuration]. A truthy [duration] that is not a string has no [split]
    method: the call throws. *)
Definition parseDuration (duration : JsValue) : result JsValue :=
  if negb (truthy duration) then Return JNull
  else
    match duration with
    | JStr s =>
        let parts := map Number (split ":" s) in
        match parts with
        | [p0; p1] => Return (JNum (add (mul p0 (Int 60)) p1))
        | [p0; p1; p2] =>
            Return (JNum (add (add (mul p0 (Int 3600)) (mul p1 (Int 60))) p2))
        | _ => Return JNull
        end
    | _ => Throw TypeError
    end.

Record Episode : Type := {
  filename : string;
  releaseDate : option Date;  (* [None] is null *)
  title : JsValue;
  description : JsValue;
  author : JsValue;
  duration : JsValue;
  explicit : JsValue;
  categories : JsValue;
  keywords : JsValue;
  image : JsValue
}.

(** [filename.match(/^(\d{4}-\d{2}-\d{2})/)]: the captured text. *)
Definition dateMatch (filename : string) : option string :=
  match matchPrefix dateRe filename with
  | Some (m, _) => Some m
  | None => None
  end.

(** [.replace(/^\d{4}-\d{2}-\d{2}_/, '')]. *)
Definition stripDatePrefix (filename : string) : string :=
  match matchPrefix (dateRe ++ [Lit "_"]) filename with
  | Some (_, rest) => rest
  | None => filename
  end.

(** [.replace(/\.mp3$/, '')]. *)
Definition stripMp3 (s : string) : string :=
  match stripSuffix ".mp3" s with
  | Some p => p
  | None => s
  end.

Definition defaultTitle (filename : string) : string :=
  replaceAllChar "_" " " (stripMp3 (stripDatePrefix filename)).

Definition parseReleaseDate (filename : string) : option Date :=
  match dateMatch filename with
  | Some m => Some (newDate m)
  | None => None
  end.

(** [getEpisodeDetails(filename, metadata = { episodes: {} })]. *)
Definition getEpisodeDetails (filename : string) (metadata : JsValue)
  : result Episode :=
  let metadata :=
    match metadata with
    | JUndefined => JObj [("episodes", JObj [])]
    | _ => metadata
    end in
  episodes <- getProp metadata "episodes" ;;
  entry <- getProp episodes filename ;;
  let episodeMetadata := orElse entry (JObj []) in
  dur <- parseDuration (getField episodeMetadata "duration") ;;
  Return {|
    filename := filename;
    releaseDate := parseReleaseDate filename;
    title := orElse (getField episodeMetadata "title")
                    (JStr (defaultTitle filename));
    description := orElse (getField episodeMetadata "description")
                          (JStr ("Episode: " ++ defaultTitle filename));
    author := getField episodeMetadata "author";
    duration := dur;
    explicit := getField episodeMetadata "explicit";
    categories := orElse (getField episodeMetadata "categories") (JArr []);
    keywords := orElse (getField episodeMetadata "keywords") (JArr []);
    image := getField episodeMetadata "image"
  |}.

(** [shouldReleaseEpisode]. The source reads the clock itself
    ([new Date()]); here the reading [now] and the local time [tza] of the
    host are arguments. *)
Definition shouldReleaseEpisode (tza : LocalTZA) (now : Z)
  (releaseDate : option Date) : bool :=
  match releaseDate with
  | None => true
  | Some d => dateLe d (TimeValue (setHours0 tza now))
  end.

(** The comparator of the listings:
    [(a, b) => (b.releaseDate || 0) - (a.releaseDate || 0)]. *)
Definition byReleaseDate (a b : Episode) : number :=
  sub (dateOrZero (releaseDate b)) (dateOrZero (releaseDate a)).

(** *** The world around a request *)

Record Stats : Type := {
  size : Z;
  mtime : Z   (* time value of the modification date *)
}.

(** The audio directory as [fs.promises] shows it. *)
Record FileSystem : Type := {
  readdir : result (list string);   (* [fsPromises.readdir(AUDIO_DIR)] *)
  stat : string -> result Stats;    (* [fsPromises.stat] of a file in it *)
  access : string -> bool           (* does [fsPromises.access] resolve *)
}.

(** [fs.readdir(path)] of the callback interface called with no callback,
    as the first revision does in [/episodes]: Node rejects the call with a
    TypeError before it reads the directory. *)
Definition readdirWithoutCallback (_ : FileSystem) : result (list string) :=
  Throw TypeError.

(** An entry of the hosting platform's asset manifest. *)
Record Asset : Type := {
  asset_url : JsValue;
  asset_size : JsValue;
  asset_uuid : JsValue
}.

(** What [getGlitchAssets] returns: the live assets by name, in manifest
    order, and the names of deleted files. *)
Record GlitchAssets : Type := {
  assets : list (string * Asset);
  deletedFiles : list string
}.

Record Env : Type := {
  SECRET_TOKEN : string;
  now : Z;                          (* the clock, as a time value *)
  tza : LocalTZA;                   (* the local time of the host *)
  engine : Engine;                  (* the engine the server runs on *)
  fs : FileSystem;
  metadataSource : option JsValue;  (* see [loadMetadata] *)
  glitch : option GlitchAssets      (* [Some] when PROJECT_DOMAIN is set *)
}.

Record Request : Type := {
  token : option string;  (* [req.query.token] when it is a string *)
  origin : string;        (* [req.protocol + '://' + req.get('host')] *)
  basename : string       (* [path.basename(req.path)] *)
}.

Record FeedItem : Type := {
  item_title : JsValue;
  item_description : JsValue;
  item_url : JsValue;
  item_date : Date;
  enclosure_url : JsValue;
  enclosure_size : JsValue;
  enclosure_type : option string;
  itunesAuthor : JsValue;
  itunesDuration : JsValue;
  itunesExplicit : JsValue;
  itunesSubtitle : JsValue;
  itunesImage : JsValue;
  itunesKeywords : JsValue
}.

Inductive Response : Type :=
| Json (status : Z) (body : JsValue)
    (* [res.status(status).json(body)] *)
| Stream (contentType : option string) (file : string)
    (* 200, the file piped into the response *)
| Redirect (url : JsValue)
    (* [res.redirect(url)] *)
| Feed (podcast : JsValue) (items : list FeedItem)
    (* 200, the XML built from the channel metadata and the items *)
| Listing (podcast : JsValue) (episodes : list Episode).
    (* 200, [res.json({ podcast, episodes })] *)

Definition errorBody (msg : string) : JsValue := JObj [("error", JStr msg)].

Definition serverError : Response := Json 500 (errorBody "Server error").

(** [checkSecret]: the handler runs only when the token is the secret. *)
Definition checkSecret (env : Env) (req : Request) (next : Response) : Response :=
  match token req with
  | Some t =>
      if String.eqb t (SECRET_TOKEN env) then next
      else Json 403 (errorBody "Invalid token")
  | None => Json 403 (errorBody "Invalid token")
  end.

(** [try { ... } catch { 500 }] around a handler body. *)
Definition orServerError (r : result Response) : Response :=
  match r with
  | Return resp => resp
  | Throw _ => serverError
  end.

Definition released (env : Env) (e : Episode) : bool :=
  shouldReleaseEpisode (tza env) (now env) (releaseDate e).

(** The URL of a locally served file, with the token in it. *)
Definition localUrl (env : Env) (req : Request) (filename : string) : JsValue :=
  JStr (origin req ++ "/audio/" ++ filename ++ "?token=" ++ SECRET_TOKEN env).

(** The object given to [feed.addItem]. *)
Definition feedItem (e : Episode) (url : JsValue) (date : Date) (size : JsValue)
  : FeedItem :=
  {| item_title := title e;
     item_description := description e;
     item_url := url;
     item_date := date;
     enclosure_url := url;
     enclosure_size := size;
     enclosure_type := lookup (extensionOf (filename e)) SUPPORTED_FORMATS;
     itunesAuthor := author e;
     itunesDuration := duration e;
     itunesExplicit := explicit e;
     itunesSubtitle := description e;
     itunesImage := image e;
     itunesKeywords := keywords e |}.

(** [d || other] for an optional date: a [Date] object is truthy even when
    it is invalid. *)
Definition dateOr (d : option Date) (other : Date) : Date :=
  match d with
  | Some x => x
  | None => other
  end.

(** [files.filter(keep).map(file => getEpisodeDetails(file, metadata))
         .sort(byReleaseDate)]. *)
Definition listEpisodes (js : Engine) (keep : string -> bool)
  (metadata : JsValue) (files : list string) : result (list Episode) :=
  eps <- mapM (fun file => getEpisodeDetails file metadata) (filter keep files) ;;
  Return (arraySort js byReleaseDate eps).

(** [isGlitch()] and [getGlitchAssets()]. *)
Definition isGlitch (env : Env) : bool :=
  match glitch env with
  | Some _ => true
  | None => false
  end.

Definition getGlitchAssets (env : Env) : GlitchAssets :=
  match glitch env with
  | Some g => g
  | None => {| assets := []; deletedFiles := [] |}
  end.

(** [deletedFiles.has(name)]. *)
Definition has (names : list string) (name : string) : bool :=
  existsb (String.eqb name) names.

End Server.

(** ** The first revision of [server.js] (local files only) *)

Module Rev1.
Import Js Server.

(** [app.use('/audio', checkSecret, ...)]. *)
Definition audio (env : Env) (req : Request) : Response :=
  checkSecret env req (orServerError (
    let metadata := loadMetadata (metadataSource env) in
    let filename := basename req in
    if negb (access (fs env) filename) then
      Return (Json 404 (errorBody "File not found"))
    else
      let extension := extensionOf filename in
      if negb (hasOwnProperty SUPPORTED_FORMATS extension) then
        Return (Json 400 (errorBody "Unsupported file format"))
      else
        episode <- getEpisodeDetails filename metadata ;;
        if negb (released env episode) then
          Return (Json 404 (errorBody "Episode not yet available"))
        else
          Return (Stream (lookup extension SUPPORTED_FORMATS) filename))).

(** The body of the loop over [audioFiles] in [/feed.xml]. *)
Definition addItem (env : Env) (req : Request) (episode : Episode)
  : result (option FeedItem) :=
  if released env episode then
    stats <- stat (fs env) (filename episode) ;;
    Return (Some (feedItem episode
                    (localUrl env req (filename episode))
                    (dateOr (releaseDate episode) (TimeValue (mtime stats)))
                    (JNum (safe (size stats)))))
  else Return None.

(** [app.get('/feed.xml', checkSecret, ...)]. *)
Definition feed_xml (env : Env) (req : Request) : Response :=
  checkSecret env req (orServerError (
    let metadata := loadMetadata (metadataSource env) in
    let podcastMetadata := orElse (getField metadata "podcast") (JObj []) in
    files <- readdir (fs env) ;;
    audioFiles <- listEpisodes (engine env) isSupported metadata files ;;
    items <- collectM (addItem env req) audioFiles ;;
    Return (Feed podcastMetadata items))).

(** [app.get('/episodes', checkSecret, ...)]. The directory is asked of the
    callback interface, [fs.readdir(AUDIO_DIR)]. *)
Definition episodes (env : Env) (req : Request) : Response :=
  checkSecret env req (orServerError (
    let metadata := loadMetadata (metadataSource env) in
    audioFiles <- readdirWithoutCallback (fs env) ;;
    episodes <- listEpisodes (engine env) (fun file => endsWith file ".mp3")
                             metadata audioFiles ;;
    Return (Listing (orElse (getField metadata "podcast") (JObj [])) episodes))).

End Rev1.

(** ** The second revision of [server.js] (local files or hosted assets) *)

Module Rev2.
Import Js Server.

(** [app.use('/audio', checkSecret, ...)]. *)
Definition audio (env : Env) (req : Request) : Response :=
  checkSecret env req (orServerError (
    let metadata := loadMetadata (metadataSource env) in
    let filename := basename req in
    let hosted :=
      if isGlitch env then
        let g := getGlitchAssets env in
        if has (deletedFiles g) filename then
          Some (Json 404 (errorBody "File not found"))
        else
          match lookup filename (assets g) with
          | Some assetInfo =>
              if truthy (asset_url assetInfo)
              then Some (Redirect (asset_url assetInfo))
              else None
          | None => None
          end
      else None in
    match hosted with
    | Some resp => Return resp
    | None =>
        if negb (access (fs env) filename) then
          Return (Json 404 (errorBody "File not found"))
        else
          let extension := extensionOf filename in
          if negb (hasOwnProperty SUPPORTED_FORMATS extension) then
            Return (Json 400 (errorBody "Unsupported file format"))
          else
            episode <- getEpisodeDetails filename metadata ;;
            if negb (released env episode) then
              Return (Json 404 (errorBody "Episode not yet available"))
            else
              Return (Stream (lookup extension SUPPORTED_FORMATS) filename)
    end)).

(** The resolved, sorted collection of a listing: from the manifest keys
    that are supported and not deleted when on the hosting platform, else
    from the directory filtered by [localKeep]. *)
Definition audioFiles (env : Env) (localKeep : string -> bool)
  (metadata : JsValue) : result (list Episode) :=
  if isGlitch env then
    let g := getGlitchAssets env in
    listEpisodes (engine env)
      (fun name => isSupported name && negb (has (deletedFiles g) name))
      metadata (map fst (assets g))
  else
    files <- readdir (fs env) ;;
    listEpisodes (engine env) localKeep metadata files.

(** The body of the loop over [audioFiles] in [/feed.xml]. *)
Definition addItem (env : Env) (req : Request) (episode : Episode)
  : result (option FeedItem) :=
  if released env episode then
    if isGlitch env then
      match lookup (filename episode) (assets (getGlitchAssets env)) with
      | Some assetInfo =>
          if truthy (asset_url assetInfo) then
            Return (Some (feedItem episode
                            (asset_url assetInfo)
                            (dateOr (releaseDate episode) (TimeValue (now env)))
                            (orElse (asset_size assetInfo) (JNum (Int 0)))))
          else Return None
      | None => Return None
      end
    else
      stats <- stat (fs env) (filename episode) ;;
      Return (Some (feedItem episode
                      (localUrl env req (filename episode))
                      (dateOr (releaseDate episode) (TimeValue (now env)))
                      (orElse (JNum (safe (size stats))) (JNum (Int 0)))))
  else Return None.

(** [app.get('/feed.xml', checkSecret, ...)]. *)
Definition feed_xml (env : Env) (req : Request) : Response :=
  checkSecret env req (orServerError (
    let metadata := loadMetadata (metadataSource env) in
    let podcastMetadata := orElse (getField metadata "podcast") (JObj []) in
    episodes <- audioFiles env isSupported metadata ;;
    items <- collectM (addItem env req) episodes ;;
    Return (Feed podcastMetadata items))).

(** [app.get('/episodes', checkSecret, ...)]. *)
Definition episodes (env : Env) (req : Request) : Response :=
  checkSecret env req (orServerError (
    let metadata := loadMetadata (metadataSource env) in
    episodes <- audioFiles env (fun file => endsWith file ".mp3") metadata ;;
    Return (Listing (orElse (getField metadata "podcast") (JObj [])) episodes))).

End Rev2.

(** ** Vocabulary of the specification

    The notions the properties below are stated with, defined on their own
    terms rather than through the functions of the server. *)

Module Spec.
Import Js Server.

(** The number of occurrences of [c] in [s]. *)
Fixpoint occurrences (c : ascii) (s : string) : nat :=
  match s with
  | EmptyString => 0
  | String a s' => (if Ascii.eqb a c then 1 else 0) + occurrences c s'
  end.

(** [m] is, character by character, an instance of the pattern [p]. *)
Fixpoint conforms (p : list cls) (m : string) : bool :=
  match p, m with
  | [], EmptyString => true
  | k :: p', String c m' => clsMatches k c && conforms p' m'
  | _, _ => false
  end.


(** The numbers written in a [YYYY-MM-DD] token. *)
Definition yearOf (m : string) : Z := digitsValue 0 (substring 0 4 m).
Definition monthOf (m : string) : Z := digitsValue 0 (substring 5 2 m).
Definition dayOf (m : string) : Z := digitsValue 0 (substring 8 2 m).

Definition daysInMonth (y m : Z) : Z :=
  if m =? 2 then (if isLeapYear y then 29 else 28)
  else if (m =? 4) || (m =? 6) || (m =? 9) || (m =? 11) then 30
  else 31.

(** The token denotes a day of the calendar. *)
Definition validCalendarDate (m : string) : bool :=
  (1 <=? monthOf m) && (monthOf m <=? 12) &&
  (1 <=? dayOf m) && (dayOf m <=? daysInMonth (yearOf m) (monthOf m)).

(** Midnight UTC that starts day [d] of month [m] of year [y], in the day
    count of [MakeDay] (day 0 is 1 January 1970, and the count follows the
    calendar from month to month and from year to year). *)
Definition midnightUTC (y m d : Z) : Z := MakeDay y m d * msPerDay.

(** [midnight] is [now] truncated to day granularity: the local clock
    reads 00:00:00.000 of the local day of [now] at the instant [midnight],
    and [midnight] is the instant the host takes that reading for (where a
    change of offset makes the clock read midnight twice, one of the two
    instants). *)
Definition isLocalMidnightOf (tza : LocalTZA) (now midnight : Z) : Prop :=
  LocalTime tza midnight = Day (LocalTime tza now) * msPerDay /\
  UTC tza (LocalTime tza midnight) = midnight.

(** The calendar of the time zone advances with time: the local day never
    goes back as time goes on, and a later day begins at a later instant. *)
Definition calendarAdvances (tza : LocalTZA) : Prop :=
  (forall t t', t <= t' -> Day (LocalTime tza t) <= Day (LocalTime tza t')) /\
  (forall d d', d <= d' -> UTC tza (d * msPerDay) <= UTC tza (d' * msPerDay)).

(** A string of decimal digits. *)
Definition digits (s : string) : bool := allChars isDigit s.

(** The grammar of numeric strings, StringNumericLiteral of ECMAScript,
    production by production. *)
Definition optional (P : string -> Prop) (s : string) : Prop :=
  s = EmptyString \/ P s.

Definition DecimalDigits (s : string) : Prop :=
  s <> EmptyString /\ allChars isDigit s = true.

Definition signed (P : string -> Prop) (s : string) : Prop :=
  exists u, (s = String "+" u \/ s = String "-" u) /\ P u.

Definition SignedInteger (s : string) : Prop :=
  DecimalDigits s \/ signed DecimalDigits s.

Definition ExponentPart (s : string) : Prop :=
  exists si, (s = String "e" si \/ s = String "E" si) /\ SignedInteger si.

Definition StrUnsignedDecimalLiteral (s : string) : Prop :=
  s = "Infinity"%string \/
  (exists i f e, s = (i ++ "." ++ f ++ e)%string /\ DecimalDigits i /\
                 optional DecimalDigits f /\ optional ExponentPart e) \/
  (exists f e, s = ("." ++ f ++ e)%string /\ DecimalDigits f /\
               optional ExponentPart e) \/
  (exists i e, s = (i ++ e)%string /\ DecimalDigits i /\
               optional ExponentPart e).

Definition StrDecimalLiteral (s : string) : Prop :=
  StrUnsignedDecimalLiteral s \/ signed StrUnsignedDecimalLiteral s.

Definition NonDecimalIntegerLiteral (s : string) : Prop :=
  exists x ds,
    s = String "0" (String x ds) /\ ds <> EmptyString /\
    (((x = "x" \/ x = "X")%char /\ allChars isHexDigit ds = true) \/
     ((x = "o" \/ x = "O")%char /\ allChars isOctalDigit ds = true) \/
     ((x = "b" \/ x = "B")%char /\ allChars isBinaryDigit ds = true)).

Definition StrNumericLiteral (s : string) : Prop :=
  StrDecimalLiteral s \/ NonDecimalIntegerLiteral s.

Definition StringNumericLiteral (s : string) : Prop :=
  exists ws body ws',
    s = (ws ++ body ++ ws')%string /\
    allChars isSpace ws = true /\ allChars isSpace ws' = true /\
    optional StrNumericLiteral body.

(** The text does not start with a digit. *)
Definition startsWithNoDigit (r : string) : Prop :=
  match r with
  | EmptyString => True
  | String c _ => isDigit c = false
  end.

(** The text holds no white space. *)
Definition noSpace (s : string) : Prop :=
  allChars (fun c => negb (isSpace c)) s = true.

(** A duration part that is not numeric: ASCII text that is no numeric
    string. *)
Definition nonNumeric (part : string) : Prop :=
  allChars isAscii part = true /\ ~ StringNumericLiteral part.

(** A duration part that is the decimal integer [z]: digits, with a sign
    or without, with white space around them or without. *)
Definition decimalInteger (part : string) (z : Z) : Prop :=
  exists ws ds ws',
    allChars isSpace ws = true /\ allChars isSpace ws' = true /\
    DecimalDigits ds /\
    ((part = (ws ++ ds ++ ws')%string /\ z = digitsValue 0 ds) \/
     (part = (ws ++ "+" ++ ds ++ ws')%string /\ z = digitsValue 0 ds) \/
     (part = (ws ++ "-" ++ ds ++ ws')%string /\ z = - digitsValue 0 ds)).


(** Where the file [filename] is fetched from: its entry in the asset
    manifest when [hosted], else the local [/audio] URL. *)
Definition sourceUrl (env : Env) (req : Request) (hosted : bool)
  (filename : string) : JsValue :=
  if hosted then
    match lookup filename (assets (getGlitchAssets env)) with
    | Some a => asset_url a
    | None => JUndefined
    end
  else localUrl env req filename.

(** The feed item [it] is the item of the episode [e]: it carries the
    resolved fields of [e], each in its place, the release date of [e] when
    it has one, and the content type of the extension of its file, and it
    points to the file of [e]. *)
Definition itemOf (env : Env) (req : Request) (hosted : bool)
  (e : Episode) (it : FeedItem) : Prop :=
  item_title it = title e /\
  item_description it = description e /\
  item_url it = sourceUrl env req hosted (filename e) /\
  enclosure_url it = sourceUrl env req hosted (filename e) /\
  enclosure_type it = lookup (extensionOf (filename e)) SUPPORTED_FORMATS /\
  (forall d, releaseDate e = Some d -> item_date it = d) /\
  itunesAuthor it = author e /\
  itunesDuration it = duration e /\
  itunesExplicit it = explicit e /\
  itunesSubtitle it = description e /\
  itunesImage it = image e /\
  itunesKeywords it = keywords e.

(** [e] is the resolution of a file against the metadata of [env]. *)
Definition resolved (env : Env) (e : Episode) : Prop :=
  getEpisodeDetails (filename e) (loadMetadata (metadataSource env)) = Return e.





(** The two listings can be compared: served locally, every file of the
    directory that has a supported extension ends in [.mp3], and can be
    sized if its date lets it through the release gate; on the hosting
    platform, every asset of the manifest has a URL. *)
Definition comparable (env : Env) : Prop :=
  match glitch env with
  | None =>
      forall files, readdir (fs env) = Return files ->
        Forall (fun file =>
                  isSupported file = true ->
                  endsWith file ".mp3" = true /\
                  (shouldReleaseEpisode (tza env) (now env)
                     (parseReleaseDate file) = true ->
                   exists st, stat (fs env) file = Return st)) files
  | Some g =>
      Forall (fun a => truthy (asset_url (snd a)) = true) (assets g)
  end.

(** The files that take part in a listing: served locally, the files of
    the directory with a supported extension; on the hosting platform, the
    names of the manifest with a supported extension that are not
    deleted. *)
Definition participants (env : Env) (names : list string) : Prop :=
  match glitch env with
  | None =>
      exists files, readdir (fs env) = Return files /\
                    names = filter isSupported files
  | Some g =>
      names = filter (fun name => isSupported name &&
                                  negb (has (deletedFiles g) name))
                     (map fst (assets g))
  end.

(** The environment [env] with the clock reading [n]. *)
Definition atTime (env : Env) (n : Z) : Env :=
  {| SECRET_TOKEN := SECRET_TOKEN env;
     now := n;
     tza := tza env;
     engine := engine env;
     fs := fs env;
     metadataSource := metadataSource env;
     glitch := glitch env |}.

(** The [status] of a response. *)
Definition statusOf (r : Response) : Z :=
  match r with
  | Json status _ => status
  | Redirect _ => 302
  | Stream _ _ | Feed _ _ | Listing _ _ => 200
  end.

End Spec.

(** ** Sample worlds

    Concrete file systems, clocks, time zones and requests used to
    evaluate the handlers. Unless a time zone is named, local time is UTC;
    the engine sorts by insertion. *)

Module Examples.
Import Js Server.

Definition sampleStats : Stats := {| size := 1000; mtime := 1700000000000 |}.

(** A directory that holds exactly the files [files]. *)
Definition directory (files : list string) : FileSystem :=
  {| readdir := Return files;
     stat := fun file =>
       if existsb (String.eqb file) files then Return sampleStats
       else Throw SystemError;
     access := fun file => existsb (String.eqb file) files |}.

(** A local server at clock reading [n], with no metadata file. *)
Definition localServer (files : list string) (n : Z) : Env :=
  {| SECRET_TOKEN := "secret";
     now := n;
     tza := fixedOffset 0;
     engine := insertionSort;
     fs := directory files;
     metadataSource := None;
     glitch := None |}.

(** The same, with a metadata file that parses to [document]. *)
Definition localServerWith (files : list string) (n : Z) (document : JsValue)
  : Env :=
  {| SECRET_TOKEN := "secret";
     now := n;
     tza := fixedOffset 0;
     engine := insertionSort;
     fs := directory files;
     metadataSource := Some document;
     glitch := None |}.

(** Europe/London from the autumn of 2023 to the spring of 2025: summer
    time, an hour ahead of UTC, from 31 March 2024, 01:00 UTC, to 27 October
    2024, 01:00 UTC. The local times from 01:00 to 02:00 of 31 March do not
    occur and those of 27 October occur twice; the host reads both with the
    offset before the change. *)
Definition london : LocalTZA :=
  {| ofUTC := fun t =>
       if (1711846800000 <=? t) && (t <? 1729990800000) then 3600000 else 0;
     ofLocal := fun t =>
       if (1711850400000 <=? t) && (t <? 1729994400000) then 3600000 else 0 |}.

(** Antarctica/Casey around 5 March 2010: at 02:00 of that day, 15:00 UTC of
    4 March, the station went from eleven hours ahead of UTC back to eight,
    and the clock from 02:00 of 5 March to 23:00 of 4 March. *)
Definition casey : LocalTZA :=
  {| ofUTC := fun t => if t <? 1267714800000 then 39600000 else 28800000;
     ofLocal := fun t => if t <? 1267754400000 then 39600000 else 28800000 |}.

(** A local server in the time zone [zone]. *)
Definition localServerIn (zone : LocalTZA) (files : list string) (n : Z) : Env :=
  {| SECRET_TOKEN := "secret";
     now := n;
     tza := zone;
     engine := insertionSort;
     fs := directory files;
     metadataSource := None;
     glitch := None |}.

(** 1 December 2024, 10:46:40 UTC, and 25 December 2024, 00:00:00 UTC. *)
Definition dec1 : Z := 1733050000000.
Definition dec25 : Z := 1735084800000.

Definition request (file : string) : Request :=
  {| token := Some "secret"; origin := "http://localhost:3000"; basename := file |}.

End Examples.

(** ** File-type detection: [getAudioFileType] and the mismatch warning *)

Module Sniff.
Import Js Server.

(** The table of [getAudioFileType]: detected MIME types to formats. *)
Definition mimeTypeMap : list (string * string) :=
  [ ("audio/mpeg", "mp3");
    ("audio/mp4", "m4a");
    ("audio/opus", "opus");
    ("audio/ogg", "opus");
    ("audio/x-matroska", "opus") ].

(** [getAudioFileType(filePath)]. [detected] is the outcome of
    [FileType.fromFile]: an exception, nothing ([None]), or the MIME type
    found, which is one of the types the library knows and so never the
    name of an inherited property of the table. The answer [None] is null
    or undefined. *)
Definition getAudioFileType (detected : result (option string)) : option string :=
  match detected with
  | Return (Some mime) => lookup mime mimeTypeMap
  | Return None => None
  | Throw _ => None
  end.

(** The condition under which [/audio] logs a mismatch warning:
    [actualType && actualType !== expectedType && actualType !== 'opus']. *)
Definition warnsMismatch (extension : string) (actualType : option string) : bool :=
  match actualType with
  | Some actual =>
      negb (String.eqb actual "") &&
      negb (String.eqb actual extension) &&
      negb (String.eqb actual "opus")
  | None => false
  end.

End Sniff.

(** ** The asset manifest: [getGlitchAssets] *)

Module Manifest.
Import Js Server.

(** The fields [getGlitchAssets] reads of a manifest line. A name and a
    uuid, when present, are strings, as the platform writes them. A JSON
    value that is no object (a number, a string, an array) has none of the
    fields. *)
Record ManifestEntry : Type := {
  name : option string;
  url : JsValue;
  size : JsValue;
  uuid : option string;
  deleted : JsValue
}.

(** What [JSON.parse] makes of a line that is not blank, trimmed and rid of
    its trailing comma. *)
Inductive Parsed : Type :=
| Unparsable                      (* [JSON.parse] throws *)
| JsonNull                        (* [null]: reading a field of it throws *)
| JsonValue (e : ManifestEntry).

(** Truthiness of an optional string field. *)
Definition present (field : option string) : bool :=
  match field with
  | Some x => negb (String.eqb x EmptyString)
  | None => false
  end.

Definition isUnparsable (line : Parsed) : bool :=
  match line with
  | Unparsable => true
  | _ => false
  end.

(** [.find(a => a.uuid === u && a.name)] over the parsed lines: the name of
    the first entry with that uuid and a name. A [null] line met on the way
    throws. *)
Fixpoint find (u : string) (lines : list Parsed) : result (option string) :=
  match lines with
  | [] => Return None
  | Unparsable :: _ => Throw TypeError
  | JsonNull :: _ => Throw TypeError
  | JsonValue a :: rest =>
      match uuid a with
      | Some x =>
          if String.eqb x u && present (name a) then Return (name a)
          else find u rest
      | None => find u rest
      end
  end.

(** The name a deletion of uuid [u] resolves to: all lines are parsed anew
    ([.map(JSON.parse)], which throws on the first bad line) and searched;
    an exception leaves the deletion without effect. *)
Definition originalName (lines : list Parsed) (u : string) : option string :=
  if existsb isUnparsable lines then None
  else match find u lines with
       | Return (Some n) => Some n
       | _ => None
       end.

(** [set.add(n)]. *)
Definition setAdd (n : string) (names : list string) : list string :=
  if has names n then names else names ++ [n].

(** [map.set(k, v)]: a key already there keeps its place. *)
Fixpoint mapSet {A : Type} (k : string) (v : A) (m : list (string * A))
  : list (string * A) :=
  match m with
  | [] => [(k, v)]
  | (k', v') :: m' =>
      if String.eqb k' k then (k, v) :: m' else (k', v') :: mapSet k v m'
  end.

(** The body of the first loop: a deletion with a uuid marks the name it
    resolves to; anything else, and any exception, leaves the set as it
    is. *)
Definition mark (lines : list Parsed) (deletedFiles : list string)
  (line : Parsed) : list string :=
  match line with
  | JsonValue asset =>
      if truthy (deleted asset) && present (uuid asset) then
        match uuid asset with
        | Some u =>
            match originalName lines u with
            | Some n => setAdd n deletedFiles
            | None => deletedFiles
            end
        | None => deletedFiles
        end
      else deletedFiles
  | _ => deletedFiles
  end.

(** First pass: collect the names of deleted files. *)
Definition firstPass (lines : list Parsed) : list string :=
  fold_left (mark lines) lines [].

Definition assetOf (asset : ManifestEntry) : Asset :=
  {| asset_url := url asset;
     asset_size := size asset;
     asset_uuid := match uuid asset with
                   | Some u => JStr u
                   | None => JUndefined
                   end |}.

(** The test of the second pass: a name, a URL, and not a deletion. *)
Definition isLive (asset : ManifestEntry) : bool :=
  present (name asset) && truthy (url asset) && negb (truthy (deleted asset)).

(** The body of the second loop: a live line whose name is not deleted
    sets the asset of that name. *)
Definition collect (deletedFiles : list string) (assets : list (string * Asset))
  (line : Parsed) : list (string * Asset) :=
  match line with
  | JsonValue asset =>
      if isLive asset then
        match name asset with
        | Some n =>
            if has deletedFiles n then assets
            else mapSet n (assetOf asset) assets
        | None => assets
        end
      else assets
  | _ => assets
  end.

(** Second pass: collect the current assets. *)
Definition secondPass (deletedFiles : list string) (lines : list Parsed)
  : list (string * Asset) :=
  fold_left (collect deletedFiles) lines [].

(** [getGlitchAssets()]. [onGlitch] is [isGlitch()]; [manifest] is the
    outcome of reading [.glitch-assets]: an exception, or its lines that are
    not blank, parsed. *)
Definition getGlitchAssets (onGlitch : bool) (manifest : result (list Parsed))
  : GlitchAssets :=
  if negb onGlitch then {| assets := []; deletedFiles := [] |}
  else
    match manifest with
    | Return lines =>
        let deletedFiles := firstPass lines in
        {| assets := secondPass deletedFiles lines;
           deletedFiles := deletedFiles |}
    | Throw _ => {| assets := []; deletedFiles := [] |}
    end.

(** The environment of a server on the hosting platform whose manifest
    reads as [manifest]. *)
Definition hostedServer (env : Env) (manifest : result (list Parsed)) : Env :=
  {| SECRET_TOKEN := SECRET_TOKEN env;
     now := now env;
     tza := tza env;
     engine := engine env;
     fs := fs env;
     metadataSource := metadataSource env;
     glitch := Some (getGlitchAssets true manifest) |}.

End Manifest.

(** ** Further vocabulary *)

Module Vocabulary.
Import Js Server Spec.

(** The supported extensions. *)
Definition extensions : list string := map fst SUPPORTED_FORMATS.

(** The sort key of an episode: the time value of its release date, 0 for
    an episode without one. *)
Definition releaseKey (e : Episode) : Z :=
  match releaseDate e with
  | Some (TimeValue t) => t
  | _ => 0
  end.

(** The episode has no release date or a valid one. *)
Definition wellDated (e : Episode) : Prop := releaseDate e <> Some InvalidDate.

(** Episodes tie in the sort when they have the same key, an episode
    without a date counting as one of 1 January 1970; the episodes with an
    invalid date form a class of their own ([None]). *)
Definition sortClass (e : Episode) : option Z :=
  match releaseDate e with
  | None => Some 0
  | Some (TimeValue t) => Some t
  | Some InvalidDate => None
  end.

Definition inClass (c : option Z) (e : Episode) : bool :=
  match c, sortClass e with
  | Some a, Some b => a =? b
  | None, None => true
  | _, _ => false
  end.

(** The asset of the last live line named [n], if any. *)
Fixpoint lastLive (n : string) (lines : list Manifest.Parsed) : option Asset :=
  match lines with
  | [] => None
  | line :: rest =>
      match lastLive n rest with
      | Some a => Some a
      | None =>
          match line with
          | Manifest.JsonValue asset =>
              if Manifest.isLive asset then
                match Manifest.name asset with
                | Some n' =>
                    if String.eqb n' n then Some (Manifest.assetOf asset)
                    else None
                | None => None
                end
              else None
          | _ => None
          end
      end
  end.

(** The episode of a file that has no metadata entry. *)
Definition defaultsOf (file : string) : Episode :=
  {| filename := file;
     releaseDate := parseReleaseDate file;
     title := JStr (defaultTitle file);
     description := JStr ("Episode: " ++ defaultTitle file);
     author := JUndefined;
     duration := JNull;
     explicit := JUndefined;
     categories := JArr [];
     keywords := JArr [];
     image := JUndefined |}.

(** The metadata file is missing, unreadable, or parses to a falsy value
    (an empty document). *)
Definition noMetadata (env : Env) : Prop :=
  match metadataSource env with
  | None => True
  | Some parsed => truthy parsed = false
  end.

(** The environment [env] with the audio directory [files]. *)
Definition withFs (env : Env) (files : FileSystem) : Env :=
  {| SECRET_TOKEN := SECRET_TOKEN env;
     now := now env;
     tza := tza env;
     engine := engine env;
     fs := files;
     metadataSource := metadataSource env;
     glitch := glitch env |}.

(** The month and the day are those of a day of the calendar. *)
Definition validDay (y m d : Z) : Prop :=
  1 <= m <= 12 /\ 1 <= d <= daysInMonth y m.

(** Dates of the calendar in their order: year, then month, then day. *)
Definition earlier (y m d y' m' d' : Z) : Prop :=
  y < y' \/ (y = y' /\ (m < m' \/ (m = m' /\ d < d'))).

End Vocabulary.

(** ** A sample manifest *)

Module HostedExamples.
Import Js Server.

Definition entry (n u link : string) : Manifest.Parsed :=
  Manifest.JsonValue
    {| Manifest.name := Some n;
       Manifest.url := JStr link;
       Manifest.size := JNum (Int 5000);
       Manifest.uuid := Some u;
       Manifest.deleted := JUndefined |}.

Definition deletion (u : string) : Manifest.Parsed :=
  Manifest.JsonValue
    {| Manifest.name := None;
       Manifest.url := JUndefined;
       Manifest.size := JUndefined;
       Manifest.uuid := Some u;
       Manifest.deleted := JBool true |}.

(** Two uploads, the second of them deleted afterwards. *)
Definition manifest : list Manifest.Parsed :=
  [ entry "2099-01-01_Future.mp3" "u1" "https://cdn.example/u1/future.mp3";
    entry "2024-12-01_Old.mp3" "u2" "https://cdn.example/u2/old.mp3";
    deletion "u2" ].

(** A server on the hosting platform with that manifest, whose local
    directory still holds the deleted file. *)
Definition server (n : Z) : Env :=
  Manifest.hostedServer
    (Examples.localServer ["2024-12-01_Old.mp3"] n) (Return manifest).

End HostedExamples.

(** ** Properties of the runtime functions *)

Module JsFacts.
Import Js Spec.

(** *** The [result] monad *)

Lemma bind_Return_inv {A B : Type} (m : result A) (k : A -> result B) (b : B) :
  bind m k = Return b -> exists a, m = Return a /\ k a = Return b.
Proof.
  destruct m as [a | e]; simpl; intros H; [ eauto | discriminate ].
Qed.

Lemma mapM_In {A B : Type} (f : A -> result B) (l : list A) (bs : list B) :
  mapM f l = Return bs ->
  forall b, In b bs -> exists a, In a l /\ f a = Return b.
Proof.
  revert bs. induction l as [| a l IH]; simpl; intros bs H b Hb.
  - inversion H; subst. contradiction.
  - apply bind_Return_inv in H. destruct H as [b0 [Hf H]].
    apply bind_Return_inv in H. destruct H as [bs0 [Hm H]].
    inversion H; subst. destruct Hb as [-> | Hb].
    + exists a. split; [ now left | assumption ].
    + destruct (IH _ Hm _ Hb) as [a' [Ha' Hfa']].
      exists a'. split; [ now right | assumption ].
Qed.

Lemma mapM_ext_in {A B : Type} (f g : A -> result B) (l : list A) :
  (forall a, In a l -> f a = g a) -> mapM f l = mapM g l.
Proof.
  induction l as [| a l IH]; simpl; intros H; [ reflexivity | ].
  rewrite (H a) by now left. rewrite IH; [ reflexivity | ].
  intros a' Ha'. apply H. now right.
Qed.

Lemma mapM_map {A B : Type} (f : A -> result B) (g : B -> A) (l : list A)
  (bs : list B) :
  (forall a b, f a = Return b -> g b = a) ->
  mapM f l = Return bs -> map g bs = l.
Proof.
  intros Hg. revert bs. induction l as [| a l IH]; simpl; intros bs H.
  - now inversion H.
  - apply bind_Return_inv in H. destruct H as [b [Hb H]].
    apply bind_Return_inv in H. destruct H as [bs0 [Hm H]].
    inversion H; subst. simpl. now rewrite (Hg _ _ Hb), (IH _ Hm).
Qed.

(** *** Strings *)

Lemma append_nil_r (s : string) : (s ++ "")%string = s.
Proof. induction s as [| c s IH]; simpl; [ | rewrite IH ]; reflexivity. Qed.

Lemma append_assoc (a b c : string) :
  ((a ++ b) ++ c)%string = (a ++ (b ++ c))%string.
Proof. induction a as [| x a IH]; simpl; [ | rewrite IH ]; reflexivity. Qed.

Lemma append_length (a b : string) :
  String.length (a ++ b) = (String.length a + String.length b)%nat.
Proof. induction a as [| x a IH]; simpl; [ | rewrite IH ]; reflexivity. Qed.


Lemma append_inv_tail (a b c : string) :
  (a ++ c)%string = (b ++ c)%string -> a = b.
Proof.
  revert b. induction a as [| x a IH]; intros [| y b] H; simpl in H.
  - reflexivity.
  - apply (f_equal String.length) in H. simpl in H.
    rewrite append_length in H. lia.
  - apply (f_equal String.length) in H. simpl in H.
    rewrite append_length in H. lia.
  - inversion H. f_equal. auto.
Qed.

Lemma mapChars_append (f : ascii -> ascii) (a b : string) :
  mapChars f (a ++ b) = (mapChars f a ++ mapChars f b)%string.
Proof. induction a as [| x a IH]; simpl; [ | rewrite IH ]; reflexivity. Qed.

(** [stripSuffix] finds the prefix exactly when the text ends in the
    suffix. *)
Lemma stripSuffix_Some (suf s p : string) :
  stripSuffix suf s = Some p <-> s = (p ++ suf)%string.
Proof.
  revert p. induction s as [| c s IH]; intros p.
  - simpl. destruct suf as [| d suf]; simpl.
    + split.
      * intros H. inversion H. reflexivity.
      * intros H. destruct p; [ reflexivity | discriminate ].
    + split; [ discriminate | ].
      intros H. destruct p; discriminate.
  - cbn [stripSuffix]. destruct (String.eqb (String c s) suf) eqn:E.
    + apply String.eqb_eq in E. split.
      * intros H. inversion H; subst. reflexivity.
      * intros H. f_equal. rewrite <- E in H.
        apply (append_inv_tail "" p (String c s)). simpl. exact H.
    + apply String.eqb_neq in E.
      destruct (stripSuffix suf s) as [q |] eqn:Hq.
      * pose proof (proj1 (IH q) eq_refl) as Hs. split.
        -- intros H. inversion H; subst. reflexivity.
        -- intros H. destruct p as [| x p]; simpl in H.
           ++ congruence.
           ++ inversion H; subst. f_equal. f_equal.
              eapply append_inv_tail. eassumption.
      * split; [ discriminate | ].
        intros H. destruct p as [| x p]; simpl in H.
        -- congruence.
        -- inversion H; subst.
           pose proof (proj2 (IH p) eq_refl) as Hc. discriminate.
Qed.

Lemma endsWith_true (s suf : string) :
  endsWith s suf = true <-> exists p, s = (p ++ suf)%string.
Proof.
  unfold endsWith. destruct (stripSuffix suf s) as [p |] eqn:E.
  - apply stripSuffix_Some in E. split; eauto.
  - split; [ discriminate | ]. intros [p Hp].
    apply stripSuffix_Some in Hp. congruence.
Qed.

(** [split] *)

Lemma split_not_nil (c : ascii) (s : string) : split c s <> [].
Proof.
  destruct s as [| a s]; simpl; [ discriminate | ].
  destruct (Ascii.eqb a c); [ discriminate | ].
  destruct (split c s); discriminate.
Qed.

Lemma split_length (c : ascii) (s : string) :
  List.length (split c s) = S (occurrences c s).
Proof.
  induction s as [| a s IH]; simpl; [ reflexivity | ].
  destruct (Ascii.eqb a c); simpl.
  - now rewrite IH.
  - destruct (split c s) as [| h t] eqn:E.
    + now apply split_not_nil in E.
    + simpl in *. assumption.
Qed.

Lemma split_no_sep (c : ascii) (s : string) :
  occurrences c s = 0%nat -> split c s = [s].
Proof.
  induction s as [| a s IH]; simpl; intros H; [ reflexivity | ].
  destruct (Ascii.eqb a c); [ discriminate | ].
  rewrite IH by assumption. reflexivity.
Qed.

Lemma split_app_sep (c : ascii) (a b : string) :
  occurrences c a = 0%nat ->
  split c (a ++ String c b) = a :: split c b.
Proof.
  induction a as [| x a IH]; simpl; intros H.
  - now rewrite Ascii.eqb_refl.
  - destruct (Ascii.eqb x c); [ discriminate | ].
    rewrite IH by assumption. reflexivity.
Qed.

Lemma last_cons_not_nil {A : Type} (x : A) (l : list A) (d : A) :
  l <> [] -> last (x :: l) d = last l d.
Proof. destruct l; [ congruence | reflexivity ]. Qed.

(** The last segment is what follows the last separator. *)
Lemma pop_split_app_sep (c : ascii) (a b : string) :
  occurrences c b = 0%nat ->
  pop (split c (a ++ String c b)) = b.
Proof.
  intros Hb. unfold pop. induction a as [| x a IH]; simpl.
  - rewrite Ascii.eqb_refl. rewrite split_no_sep by assumption. reflexivity.
  - destruct (Ascii.eqb x c).
    + rewrite last_cons_not_nil by apply split_not_nil. exact IH.
    + destruct (split c (a ++ String c b)) as [| h t] eqn:E.
      * now apply split_not_nil in E.
      * destruct t as [| h' t'].
        -- exfalso.
           assert (List.length (split c (a ++ String c b)) = 1%nat) as Hl
             by now rewrite E.
           rewrite split_length in Hl.
           clear - Hl. induction a as [| y a IHa]; simpl in Hl.
           ++ rewrite Ascii.eqb_refl in Hl. discriminate.
           ++ destruct (Ascii.eqb y c); simpl in Hl; [ discriminate | auto ].
        -- exact IH.
Qed.

(** [matchPrefix] splits the text into a conforming head and the rest. *)
Lemma matchPrefix_conforms (p : list cls) (m rest : string) :
  conforms p m = true -> matchPrefix p (m ++ rest) = Some (m, rest).
Proof.
  revert m. induction p as [| k p IH]; intros [| c m]; simpl;
    try discriminate; [ reflexivity | ].
  intros H. apply andb_prop in H. destruct H as [Hk Hc].
  now rewrite Hk, (IH _ Hc).
Qed.

Lemma matchPrefix_Some (p : list cls) (s m rest : string) :
  matchPrefix p s = Some (m, rest) <->
  s = (m ++ rest)%string /\ conforms p m = true.
Proof.
  split.
  - revert s m rest. induction p as [| k p IH]; intros s m rest; simpl.
    + intros H. inversion H; subst. split; reflexivity.
    + destruct s as [| c s]; [ discriminate | ].
      destruct (clsMatches k c) eqn:Hk; [ | discriminate ].
      destruct (matchPrefix p s) as [[m' r'] |] eqn:Hm; [ | discriminate ].
      intros H. inversion H; subst.
      destruct (IH _ _ _ Hm) as [-> Hc]. simpl. now rewrite Hk, Hc.
  - intros [-> H]. now apply matchPrefix_conforms.
Qed.


(** The matched text, taken alone, matches entirely. *)
Lemma matchPrefix_matched (p : list cls) (m : string) :
  conforms p m = true -> matchPrefix p m = Some (m, EmptyString).
Proof.
  intros H. apply matchPrefix_Some. split; [ | assumption ].
  now rewrite append_nil_r.
Qed.

(** *** Characters *)

Lemma isDigit_not_space (c : ascii) : isDigit c = true -> isSpace c = false.
Proof.
  unfold isDigit, isSpace. intros H.
  apply andb_prop in H. destruct H as [H1 H2].
  apply N.leb_le in H1. apply N.leb_le in H2.
  apply orb_false_iff. split.
  - apply andb_false_iff. right. apply N.leb_gt. lia.
  - apply N.eqb_neq. lia.
Qed.

Lemma isDigit_not_colon (c : ascii) : isDigit c = true -> Ascii.eqb c ":" = false.
Proof.
  intros H. apply Ascii.eqb_neq. intros ->. discriminate.
Qed.

Lemma digits_no_colon (s : string) :
  digits s = true -> occurrences ":" s = 0%nat.
Proof.
  unfold digits. induction s as [| c s IH]; simpl; intros H; [ reflexivity | ].
  apply andb_prop in H. destruct H as [Hc Hs].
  rewrite (isDigit_not_colon _ Hc). auto.
Qed.

(** *** [trim] and [Number] *)

Lemma trimStart_no_space (s : string) :
  allChars (fun c => negb (isSpace c)) s = true -> trimStart s = s.
Proof.
  destruct s as [| c s]; simpl; [ reflexivity | ].
  intros H. apply andb_prop in H. destruct H as [Hc _].
  apply negb_true_iff in Hc. now rewrite Hc.
Qed.

Lemma trimEnd_no_space (s : string) :
  allChars (fun c => negb (isSpace c)) s = true -> trimEnd s = s.
Proof.
  induction s as [| c s IH]; simpl; [ reflexivity | ].
  intros H. apply andb_prop in H. destruct H as [Hc Hs].
  apply negb_true_iff in Hc. rewrite (IH Hs), Hc.
  destruct s; reflexivity.
Qed.

Lemma allChars_impl (p q : ascii -> bool) (s : string) :
  (forall c, p c = true -> q c = true) ->
  allChars p s = true -> allChars q s = true.
Proof.
  intros Hpq. induction s as [| c s IH]; simpl; [ reflexivity | ].
  intros H. apply andb_prop in H. destruct H as [Hc Hs].
  rewrite (Hpq _ Hc), (IH Hs). reflexivity.
Qed.

Lemma trim_digits (s : string) : digits s = true -> trim s = s.
Proof.
  intros H. unfold trim.
  assert (allChars (fun c => negb (isSpace c)) s = true) as Hn.
  { apply (allChars_impl isDigit); [ | exact H ].
    intros c Hc. now rewrite (isDigit_not_space _ Hc). }
  rewrite (trimStart_no_space _ Hn). now apply trimEnd_no_space.
Qed.

Lemma allChars_append (p : ascii -> bool) (a b : string) :
  allChars p (a ++ b) = allChars p a && allChars p b.
Proof.
  induction a as [| c a IH]; simpl; [ reflexivity | ].
  now rewrite IH, andb_assoc.
Qed.

Lemma isSpace_isAscii (c : ascii) : isSpace c = true -> isAscii c = true.
Proof.
  unfold isSpace, isAscii. cbv zeta. intros H. apply N.ltb_lt.
  apply orb_prop in H. destruct H as [H | H].
  - apply andb_prop in H. destruct H as [_ H]. apply N.leb_le in H. lia.
  - apply N.eqb_eq in H. lia.
Qed.

Lemma isDigit_isAscii (c : ascii) : isDigit c = true -> isAscii c = true.
Proof.
  unfold isDigit, isAscii. cbv zeta. intros H. apply N.ltb_lt.
  apply andb_prop in H. destruct H as [_ H]. apply N.leb_le in H. lia.
Qed.

(** *** [spanDigits] *)

Lemma spanDigits_spec (s d r : string) :
  spanDigits s = (d, r) ->
  s = (d ++ r)%string /\ allChars isDigit d = true /\ startsWithNoDigit r.
Proof.
  revert d r. induction s as [| c s IH]; intros d r; cbn [spanDigits].
  - intros H. inversion H; subst. repeat split.
  - destruct (isDigit c) eqn:Hc.
    + destruct (spanDigits s) as [d' r'] eqn:E. intros H. inversion H; subst.
      destruct (IH d' r eq_refl) as [-> [Hd Hr]].
      cbn [allChars append]. rewrite Hc, Hd. repeat split; assumption.
    + intros H. inversion H; subst. repeat split. exact Hc.
Qed.

Lemma spanDigits_app (d r : string) :
  allChars isDigit d = true -> startsWithNoDigit r ->
  spanDigits (d ++ r) = (d, r).
Proof.
  intros Hd Hr. induction d as [| c d IH]; cbn [append spanDigits].
  - destruct r as [| c r]; [ reflexivity | ].
    cbn [spanDigits]. simpl in Hr. now rewrite Hr.
  - cbn [allChars] in Hd. apply andb_prop in Hd. destruct Hd as [Hc Hd].
    now rewrite Hc, (IH Hd).
Qed.

(** *** The recogniser of numeric strings follows the grammar *)

Lemma isDecimalDigits_iff (s : string) :
  isDecimalDigits s = true <-> DecimalDigits s.
Proof.
  unfold isDecimalDigits, DecimalDigits.
  rewrite andb_true_iff, negb_true_iff, String.eqb_neq. reflexivity.
Qed.

Lemma DecimalDigits_first (s : string) :
  DecimalDigits s -> exists c s', s = String c s' /\ isDigit c = true.
Proof.
  intros [Hne Hd]. destruct s as [| c s']; [ contradiction | ].
  cbn [allChars] in Hd. apply andb_prop in Hd. destruct Hd as [Hc _].
  eauto.
Qed.

Lemma isDigit_not_sign (c : ascii) : isDigit c = true -> isSign c = false.
Proof.
  intros H. unfold isSign. apply orb_false_iff.
  split; apply Ascii.eqb_neq; intros ->; discriminate.
Qed.

Lemma isSign_iff (c : ascii) : isSign c = true <-> (c = "+" \/ c = "-")%char.
Proof.
  unfold isSign. rewrite orb_true_iff, !Ascii.eqb_eq. reflexivity.
Qed.

(** An optional sign in front of a production whose texts never start with
    a sign. *)
Lemma signed_iff (P : string -> Prop) (test : string -> bool) (s : string) :
  (forall u, test u = true <-> P u) ->
  (forall c u, P (String c u) -> isSign c = false) ->
  ~ P EmptyString ->
  match s with
  | EmptyString => false
  | String c s' => if isSign c then test s' else test s
  end = true <-> P s \/ signed P s.
Proof.
  intros Htest Hfirst Hempty. destruct s as [| c s'].
  - split; [ discriminate | ].
    intros [H | [u [[H | H] _]]]; [ contradiction | discriminate | discriminate ].
  - destruct (isSign c) eqn:Hc.
    + rewrite Htest. split.
      * intros H. right. exists s'. split; [ | exact H ].
        apply isSign_iff in Hc. destruct Hc as [-> | ->]; auto.
      * intros [H | [u [[H | H] Hu]]].
        -- apply Hfirst in H. congruence.
        -- inversion H; subst. exact Hu.
        -- inversion H; subst. exact Hu.
    + rewrite Htest. split; [ now left | ].
      intros [H | [u [[H | H] _]]]; [ exact H | | ];
        inversion H; subst; discriminate.
Qed.

Lemma isSignedInteger_iff (s : string) :
  isSignedInteger s = true <-> SignedInteger s.
Proof.
  unfold isSignedInteger, SignedInteger.
  apply (signed_iff DecimalDigits isDecimalDigits).
  - apply isDecimalDigits_iff.
  - intros c u H. apply DecimalDigits_first in H.
    destruct H as [c' [s' [H Hc]]]. inversion H; subst.
    now apply isDigit_not_sign.
  - intros [H _]. now apply H.
Qed.

Lemma isExponentPartOpt_iff (s : string) :
  isExponentPartOpt s = true <-> optional ExponentPart s.
Proof.
  unfold isExponentPartOpt, optional, ExponentPart.
  destruct s as [| c s'].
  - split; [ now left | reflexivity ].
  - rewrite andb_true_iff, orb_true_iff, !Ascii.eqb_eq, isSignedInteger_iff.
    split.
    + intros [Hc Hs]. right. exists s'. split; [ | exact Hs ].
      destruct Hc as [-> | ->]; auto.
    + intros [H | [si [[H | H] Hs]]]; [ discriminate | | ];
        inversion H; subst; auto.
Qed.

Lemma optional_ExponentPart_start (e : string) :
  optional ExponentPart e -> startsWithNoDigit e.
Proof.
  intros [-> | [si [[-> | ->] _]]]; simpl; auto.
Qed.

Lemma optional_DecimalDigits (f : string) :
  optional DecimalDigits f <-> allChars isDigit f = true.
Proof.
  unfold optional, DecimalDigits. split.
  - intros [-> | [_ H]]; [ reflexivity | exact H ].
  - intros H. destruct f as [| c f]; [ now left | right ].
    split; [ discriminate | exact H ].
Qed.

Lemma isUnsignedDecimalLiteral_iff (s : string) :
  isUnsignedDecimalLiteral s = true <-> StrUnsignedDecimalLiteral s.
Proof.
  unfold isUnsignedDecimalLiteral, StrUnsignedDecimalLiteral.
  rewrite orb_true_iff, String.eqb_eq. split.
  - intros [H | H]; [ now left | right ].
    destruct (spanDigits s) as [i r] eqn:E.
    apply spanDigits_spec in E. destruct E as [-> [Hi Hr]].
    destruct r as [| c r'].
    + apply negb_true_iff, String.eqb_neq in H.
      right. right. exists i, EmptyString.
      repeat split; [ assumption | assumption | now left ].
    + destruct (Ascii.eqb c ".") eqn:Hc.
      * apply Ascii.eqb_eq in Hc. subst c.
        destruct (spanDigits r') as [f r''] eqn:E'.
        apply spanDigits_spec in E'. destruct E' as [-> [Hf Hr'']].
        apply andb_prop in H. destruct H as [Hne He].
        apply isExponentPartOpt_iff in He.
        destruct (String.eqb i EmptyString) eqn:Ei.
        -- apply String.eqb_eq in Ei. subst i. cbn [negb orb] in Hne.
           apply negb_true_iff, String.eqb_neq in Hne.
           right. left. exists f, r''. repeat split; assumption.
        -- apply String.eqb_neq in Ei. left. exists i, f, r''.
           repeat split; try assumption.
           now apply optional_DecimalDigits.
      * apply andb_prop in H. destruct H as [Hne He].
        apply negb_true_iff, String.eqb_neq in Hne.
        apply isExponentPartOpt_iff in He.
        right. right. exists i, (String c r'). repeat split; assumption.
  - intros [H | [H | [H | H]]]; [ now left | right | right | right ].
    + destruct H as [i [f [e [-> [[Hne Hi] [Hf He]]]]]].
      apply optional_DecimalDigits in Hf.
      rewrite (spanDigits_app i ("." ++ f ++ e)) by (assumption || reflexivity).
      cbn [append]. rewrite Ascii.eqb_refl.
      rewrite (spanDigits_app f e)
        by (assumption || now apply optional_ExponentPart_start).
      apply String.eqb_neq in Hne. rewrite Hne. cbn [negb orb andb].
      now apply isExponentPartOpt_iff.
    + destruct H as [f [e [-> [[Hne Hf] He]]]].
      cbn [append spanDigits]. change (isDigit ".") with false.
      cbv beta iota. rewrite Ascii.eqb_refl.
      rewrite (spanDigits_app f e)
        by (assumption || now apply optional_ExponentPart_start).
      apply String.eqb_neq in Hne. rewrite Hne. cbn [negb orb andb].
      rewrite orb_true_r. cbn [andb].
      now apply isExponentPartOpt_iff.
    + destruct H as [i [e [-> [[Hne Hi] He]]]].
      rewrite (spanDigits_app i e)
        by (assumption || now apply optional_ExponentPart_start).
      apply String.eqb_neq in Hne. rewrite Hne. cbn [negb].
      apply isExponentPartOpt_iff in He.
      destruct e as [| c e']; [ reflexivity | ].
      destruct (Ascii.eqb c ".") eqn:Hc; [ | now rewrite He ].
      apply Ascii.eqb_eq in Hc. subst c. discriminate.
Qed.

Lemma StrUnsignedDecimalLiteral_first (c : ascii) (u : string) :
  StrUnsignedDecimalLiteral (String c u) -> isSign c = false.
Proof.
  intros [H | [H | [H | H]]].
  - inversion H; subst. reflexivity.
  - destruct H as [i [f [e [H [Hi _]]]]].
    apply DecimalDigits_first in Hi. destruct Hi as [c' [i' [-> Hc]]].
    inversion H; subst. now apply isDigit_not_sign.
  - destruct H as [f [e [H _]]]. inversion H; subst. reflexivity.
  - destruct H as [i [e [H [Hi _]]]].
    apply DecimalDigits_first in Hi. destruct Hi as [c' [i' [-> Hc]]].
    inversion H; subst. now apply isDigit_not_sign.
Qed.

Lemma StrUnsignedDecimalLiteral_nonempty :
  ~ StrUnsignedDecimalLiteral EmptyString.
Proof.
  intros [H | [H | [H | H]]].
  - discriminate.
  - destruct H as [i [f [e [H [Hi _]]]]].
    apply DecimalDigits_first in Hi. destruct Hi as [c' [i' [-> Hc]]].
    discriminate.
  - destruct H as [f [e [H _]]]. discriminate.
  - destruct H as [i [e [H [Hi _]]]].
    apply DecimalDigits_first in Hi. destruct Hi as [c' [i' [-> Hc]]].
    discriminate.
Qed.

Lemma isDecimalLiteral_iff (s : string) :
  isDecimalLiteral s = true <-> StrDecimalLiteral s.
Proof.
  unfold isDecimalLiteral, StrDecimalLiteral.
  apply (signed_iff StrUnsignedDecimalLiteral isUnsignedDecimalLiteral).
  - apply isUnsignedDecimalLiteral_iff.
  - apply StrUnsignedDecimalLiteral_first.
  - apply StrUnsignedDecimalLiteral_nonempty.
Qed.

Lemma nonDecimalRadix_iff (s : string) :
  nonDecimalRadix s <> None <-> NonDecimalIntegerLiteral s.
Proof.
  unfold nonDecimalRadix, NonDecimalIntegerLiteral. split.
  - destruct s as [| z [| x ds]]; try congruence.
    destruct (Ascii.eqb z "0") eqn:Hz; [ | cbn [andb]; congruence ].
    apply Ascii.eqb_eq in Hz. subst z.
    destruct (String.eqb ds EmptyString) eqn:Hds; [ cbn; congruence | ].
    apply String.eqb_neq in Hds. cbn [negb andb]. intros H.
    exists x, ds. split; [ reflexivity | split; [ assumption | ] ].
    destruct ((Ascii.eqb x "x" || Ascii.eqb x "X") && allChars isHexDigit ds)
      eqn:Hx.
    { apply andb_prop in Hx. destruct Hx as [Hx Hd].
      apply orb_prop in Hx. rewrite !Ascii.eqb_eq in Hx. now left. }
    destruct ((Ascii.eqb x "o" || Ascii.eqb x "O") && allChars isOctalDigit ds)
      eqn:Ho.
    { apply andb_prop in Ho. destruct Ho as [Ho Hd].
      apply orb_prop in Ho. rewrite !Ascii.eqb_eq in Ho. right. now left. }
    destruct ((Ascii.eqb x "b" || Ascii.eqb x "B") && allChars isBinaryDigit ds)
      eqn:Hb; [ | congruence ].
    apply andb_prop in Hb. destruct Hb as [Hb Hd].
    apply orb_prop in Hb. rewrite !Ascii.eqb_eq in Hb. right. now right.
  - intros [x [ds [-> [Hne H]]]].
    apply String.eqb_neq in Hne. rewrite Hne. cbn [Ascii.eqb Bool.eqb negb andb].
    destruct H as [[[-> | ->] Hd] | [[[-> | ->] Hd] | [[-> | ->] Hd]]];
      rewrite Hd; cbn; try discriminate;
      destruct (allChars isHexDigit ds); cbn; try discriminate;
      destruct (allChars isOctalDigit ds); cbn; discriminate.
Qed.

Lemma isNumericLiteral_iff (s : string) :
  isNumericLiteral s = true <-> StrNumericLiteral s.
Proof.
  unfold isNumericLiteral, StrNumericLiteral.
  rewrite orb_true_iff, isDecimalLiteral_iff, <- nonDecimalRadix_iff.
  destruct (nonDecimalRadix s); split; intros [H | H]; auto;
    try discriminate; try congruence.
  right. discriminate.
Qed.

(** *** No numeric literal holds white space *)

Lemma noSpace_append (a b : string) : noSpace a -> noSpace b -> noSpace (a ++ b).
Proof. unfold noSpace. intros Ha Hb. now rewrite allChars_append, Ha, Hb. Qed.

Lemma noSpace_digits (s : string) : allChars isDigit s = true -> noSpace s.
Proof.
  apply allChars_impl. intros c Hc. now rewrite (isDigit_not_space _ Hc).
Qed.

Lemma noSpace_cons (c : ascii) (s : string) :
  isSpace c = false -> noSpace s -> noSpace (String c s).
Proof. unfold noSpace. intros Hc Hs. cbn [allChars]. now rewrite Hc, Hs. Qed.

Lemma noSpace_signed (P : string -> Prop) (s : string) :
  (forall u, P u -> noSpace u) -> signed P s -> noSpace s.
Proof.
  intros HP [u [[-> | ->] Hu]]; apply noSpace_cons; auto.
Qed.

Lemma noSpace_SignedInteger (s : string) : SignedInteger s -> noSpace s.
Proof.
  intros [[_ H] | H]; [ now apply noSpace_digits | ].
  eapply noSpace_signed; [ | exact H ]. intros u [_ Hu]. now apply noSpace_digits.
Qed.

Lemma noSpace_exponent (e : string) : optional ExponentPart e -> noSpace e.
Proof.
  intros [-> | [si [[-> | ->] Hsi]]]; [ reflexivity | | ];
    apply noSpace_cons; auto using noSpace_SignedInteger.
Qed.

Lemma noSpace_unsigned (s : string) : StrUnsignedDecimalLiteral s -> noSpace s.
Proof.
  intros [-> | [H | [H | H]]]; [ reflexivity | | | ].
  - destruct H as [i [f [e [-> [[_ Hi] [Hf He]]]]]].
    apply optional_DecimalDigits in Hf.
    apply noSpace_append; [ now apply noSpace_digits | ].
    apply noSpace_cons; [ reflexivity | ].
    apply noSpace_append; [ now apply noSpace_digits | ].
    now apply noSpace_exponent.
  - destruct H as [f [e [-> [[_ Hf] He]]]].
    apply noSpace_cons; [ reflexivity | ].
    apply noSpace_append; [ now apply noSpace_digits | ].
    now apply noSpace_exponent.
  - destruct H as [i [e [-> [[_ Hi] He]]]].
    apply noSpace_append; [ now apply noSpace_digits | ].
    now apply noSpace_exponent.
Qed.

Lemma isHexDigit_not_space (c : ascii) : isHexDigit c = true -> isSpace c = false.
Proof.
  destruct c as [[] [] [] [] [] [] [] []]; try reflexivity; discriminate.
Qed.

Lemma isOctalDigit_not_space (c : ascii) :
  isOctalDigit c = true -> isSpace c = false.
Proof.
  destruct c as [[] [] [] [] [] [] [] []]; try reflexivity; discriminate.
Qed.

Lemma isBinaryDigit_not_space (c : ascii) :
  isBinaryDigit c = true -> isSpace c = false.
Proof.
  destruct c as [[] [] [] [] [] [] [] []]; try reflexivity; discriminate.
Qed.

Lemma noSpace_literal (s : string) : StrNumericLiteral s -> noSpace s.
Proof.
  intros [[H | H] | H].
  - now apply noSpace_unsigned.
  - eapply noSpace_signed; [ | exact H ]. apply noSpace_unsigned.
  - destruct H as [x [ds [-> [_ H]]]].
    apply noSpace_cons; [ reflexivity | ].
    destruct H as [[Hx Hd] | [[Hx Hd] | [Hx Hd]]].
    + apply noSpace_cons; [ destruct Hx as [-> | ->]; reflexivity | ].
      revert Hd. apply allChars_impl. intros c Hc.
      now rewrite (isHexDigit_not_space _ Hc).
    + apply noSpace_cons; [ destruct Hx as [-> | ->]; reflexivity | ].
      revert Hd. apply allChars_impl. intros c Hc.
      now rewrite (isOctalDigit_not_space _ Hc).
    + apply noSpace_cons; [ destruct Hx as [-> | ->]; reflexivity | ].
      revert Hd. apply allChars_impl. intros c Hc.
      now rewrite (isBinaryDigit_not_space _ Hc).
Qed.

(** *** [trim] takes the white space off both ends *)

Lemma trimStart_spaces (ws s : string) :
  allChars isSpace ws = true -> trimStart (ws ++ s) = trimStart s.
Proof.
  induction ws as [| c ws IH]; cbn [append allChars]; [ reflexivity | ].
  intros H. apply andb_prop in H. destruct H as [Hc Hws].
  cbn [trimStart]. now rewrite Hc, IH.
Qed.

Lemma trimEnd_spaces (ws : string) :
  allChars isSpace ws = true -> trimEnd ws = EmptyString.
Proof.
  induction ws as [| c ws IH]; cbn [allChars trimEnd]; [ reflexivity | ].
  intros H. apply andb_prop in H. destruct H as [Hc Hws].
  now rewrite (IH Hws), Hc.
Qed.

Lemma trimEnd_noSpace_spaces (body ws : string) :
  noSpace body -> allChars isSpace ws = true -> trimEnd (body ++ ws) = body.
Proof.
  unfold noSpace. intros Hb Hws.
  induction body as [| c body IH]; cbn [append].
  - now apply trimEnd_spaces.
  - cbn [allChars] in Hb. apply andb_prop in Hb. destruct Hb as [Hc Hb].
    apply negb_true_iff in Hc. cbn [trimEnd]. rewrite (IH Hb), Hc.
    destruct body; reflexivity.
Qed.

Lemma trim_around (ws body ws' : string) :
  allChars isSpace ws = true -> allChars isSpace ws' = true -> noSpace body ->
  trim (ws ++ body ++ ws') = body.
Proof.
  intros Hws Hws' Hb. unfold trim. rewrite (trimStart_spaces _ _ Hws).
  destruct body as [| c body].
  - cbn [append]. clear Hb.
    induction ws' as [| c ws' IH]; [ reflexivity | ].
    cbn [allChars] in Hws'. apply andb_prop in Hws'. destruct Hws' as [Hc H].
    cbn [trimStart]. rewrite Hc. now apply IH.
  - assert (isSpace c = false) as Hc.
    { unfold noSpace in Hb. cbn [allChars] in Hb.
      apply andb_prop in Hb. destruct Hb as [Hc _].
      now apply negb_true_iff in Hc. }
    cbn [append trimStart]. rewrite Hc.
    now apply (trimEnd_noSpace_spaces (String c body)).
Qed.

Lemma trimStart_decompose (s : string) :
  exists ws, s = (ws ++ trimStart s)%string /\ allChars isSpace ws = true.
Proof.
  induction s as [| c s [ws [IH Hws]]]; [ now exists EmptyString | ].
  cbn [trimStart]. destruct (isSpace c) eqn:Hc.
  - exists (String c ws). cbn [append allChars]. now rewrite <- IH, Hc, Hws.
  - now exists EmptyString.
Qed.

Lemma trimEnd_decompose (s : string) :
  exists ws, s = (trimEnd s ++ ws)%string /\ allChars isSpace ws = true.
Proof.
  induction s as [| c s [ws [IH Hws]]]; [ now exists EmptyString | ].
  cbn [trimEnd]. destruct (trimEnd s) as [| x t] eqn:E.
  - destruct (isSpace c) eqn:Hc.
    + exists (String c ws). cbn [append allChars] in *.
      subst ws. now rewrite Hc, Hws.
    + exists ws. cbn [append] in *. now subst ws.
  - exists ws. cbn [append] in *. now rewrite <- IH.
Qed.

Lemma trim_decompose (s : string) :
  exists ws ws',
    s = (ws ++ trim s ++ ws')%string /\
    allChars isSpace ws = true /\ allChars isSpace ws' = true.
Proof.
  destruct (trimStart_decompose s) as [ws [H Hws]].
  destruct (trimEnd_decompose (trimStart s)) as [ws' [H' Hws']].
  exists ws, ws'. unfold trim. rewrite <- H', <- H. auto.
Qed.

(** *** [Number] *)

(** The strings [Number] does not convert to NaN are the numeric
    strings. *)
Lemma StringNumericLiteral_iff (s : string) :
  StringNumericLiteral s <->
  trim s = EmptyString \/ isNumericLiteral (trim s) = true.
Proof.
  unfold StringNumericLiteral. split.
  - intros [ws [body [ws' [-> [Hws [Hws' Hbody]]]]]].
    destruct Hbody as [-> | Hbody].
    + left. now apply trim_around.
    + right. rewrite trim_around; try assumption.
      * now apply isNumericLiteral_iff.
      * now apply noSpace_literal.
  - intros H. destruct (trim_decompose s) as [ws [ws' [Hs [Hws Hws']]]].
    exists ws, (trim s), ws'. repeat split; try assumption.
    destruct H as [H | H]; [ now left | right ].
    now apply isNumericLiteral_iff.
Qed.

(** [Number] of a part that is not numeric is NaN. *)
Lemma Number_nonNumeric (s : string) : nonNumeric s -> Number s = NaN.
Proof.
  intros [Hascii Hnot]. unfold Number. rewrite Hascii. cbn [negb].
  rewrite StringNumericLiteral_iff in Hnot.
  destruct (String.eqb (trim s) EmptyString) eqn:E.
  - apply String.eqb_eq in E. tauto.
  - unfold isNumericLiteral in Hnot.
    destruct (nonDecimalRadix (trim s)).
    + exfalso. apply Hnot. right. apply orb_true_r.
    + destruct (isDecimalLiteral (trim s)); [ | reflexivity ].
      exfalso. apply Hnot. now right.
Qed.

Lemma nonDecimalRadix_digits (s : string) :
  allChars isDigit s = true -> nonDecimalRadix s = None.
Proof.
  destruct s as [| z [| x ds]]; try reflexivity.
  cbn [allChars nonDecimalRadix]. intros H.
  apply andb_prop in H. destruct H as [_ H].
  apply andb_prop in H. destruct H as [Hx _].
  assert (forall y, isDigit y = false -> Ascii.eqb x y = false) as Hn.
  { intros y Hy. apply Ascii.eqb_neq. intros ->. congruence. }
  rewrite !Hn by reflexivity. cbn [orb andb].
  destruct (Ascii.eqb z "0" && negb (String.eqb ds EmptyString)); reflexivity.
Qed.

Lemma nonDecimalRadix_signed (c : ascii) (s : string) :
  isSign c = true -> nonDecimalRadix (String c s) = None.
Proof.
  intros Hc. apply isSign_iff in Hc.
  destruct Hc as [-> | ->]; destruct s; reflexivity.
Qed.

Lemma StrDecimalLiteral_digits (ds : string) :
  DecimalDigits ds -> StrUnsignedDecimalLiteral ds.
Proof.
  intros H. right. right. right. exists ds, EmptyString.
  rewrite append_nil_r. repeat split; try apply H. now left.
Qed.

(** [Number] reads a decimal integer as its value. *)
Lemma Number_decimalInteger (part : string) (z : Z) :
  decimalInteger part z -> Number part = safe z.
Proof.
  intros [ws [ds [ws' [Hws [Hws' [Hds H]]]]]].
  pose proof Hds as [Hne Hd].
  pose proof (DecimalDigits_first _ Hds) as [c [ds' [Hc Hdc]]].
  assert (allChars isAscii ws = true) as Aws
    by (revert Hws; apply allChars_impl, isSpace_isAscii).
  assert (allChars isAscii ws' = true) as Aws'
    by (revert Hws'; apply allChars_impl, isSpace_isAscii).
  assert (allChars isAscii ds = true) as Ads
    by (revert Hd; apply allChars_impl, isDigit_isAscii).
  assert (isDecimalDigits ds = true) as Hdd by now apply isDecimalDigits_iff.
  unfold Number. destruct H as [[-> ->] | [[-> ->] | [-> ->]]].
  - assert (allChars isAscii (ws ++ ds ++ ws') = true) as HA
      by (rewrite !allChars_append, Aws, Ads, Aws'; reflexivity).
    rewrite HA. cbn [negb].
    rewrite trim_around by (assumption || now apply noSpace_digits).
    apply String.eqb_neq in Hne. rewrite Hne.
    rewrite (nonDecimalRadix_digits _ Hd).
    rewrite (proj2 (isDecimalLiteral_iff ds))
      by (left; now apply StrDecimalLiteral_digits).
    unfold decimalValue. subst ds.
    rewrite (isDigit_not_sign _ Hdc). now rewrite Hdd.
  - assert (allChars isAscii (ws ++ "+" ++ ds ++ ws') = true) as HA
      by (rewrite !allChars_append, Aws, Ads, Aws'; reflexivity).
    rewrite HA. cbn [negb].
    change (ws ++ "+" ++ ds ++ ws')%string
      with (ws ++ (String "+" ds) ++ ws')%string.
    rewrite trim_around
      by first [ assumption
               | apply noSpace_cons; [ reflexivity | now apply noSpace_digits ] ].
    cbn [String.eqb]. rewrite nonDecimalRadix_signed by reflexivity.
    rewrite (proj2 (isDecimalLiteral_iff (String "+" ds))).
    + unfold decimalValue. cbn [isSign Ascii.eqb Bool.eqb orb]. now rewrite Hdd.
    + right. exists ds. split; [ now left | ].
      now apply StrDecimalLiteral_digits.
  - assert (allChars isAscii (ws ++ "-" ++ ds ++ ws') = true) as HA
      by (rewrite !allChars_append, Aws, Ads, Aws'; reflexivity).
    rewrite HA. cbn [negb].
    change (ws ++ "-" ++ ds ++ ws')%string
      with (ws ++ (String "-" ds) ++ ws')%string.
    rewrite trim_around
      by first [ assumption
               | apply noSpace_cons; [ reflexivity | now apply noSpace_digits ] ].
    cbn [String.eqb]. rewrite nonDecimalRadix_signed by reflexivity.
    rewrite (proj2 (isDecimalLiteral_iff (String "-" ds))).
    + unfold decimalValue. cbn [isSign Ascii.eqb Bool.eqb orb]. now rewrite Hdd.
    + right. exists ds. split; [ now right | ].
      now apply StrDecimalLiteral_digits.
Qed.

(** A run of digits is the decimal integer of its value. *)
Lemma digits_decimalInteger (s : string) :
  s <> EmptyString -> digits s = true -> decimalInteger s (digitsValue 0 s).
Proof.
  intros Hne Hd. exists EmptyString, s, EmptyString.
  repeat split; try assumption. left. now rewrite append_nil_r.
Qed.

(** [Number] reads a run of digits as its decimal value. *)
Lemma Number_digits (s : string) :
  digits s = true -> Number s = safe (digitsValue 0 s).
Proof.
  intros H. destruct s as [| c s]; [ reflexivity | ].
  apply Number_decimalInteger, digits_decimalInteger; [ discriminate | exact H ].
Qed.

(** *** Dates *)

(** Where the calendar advances, local midnight advances with time. *)
Lemma setHours0_mono (tza : LocalTZA) (t t' : Z) :
  calendarAdvances tza -> t <= t' -> setHours0 tza t <= setHours0 tza t'.
Proof.
  intros [Hday Hmidnight] H. unfold setHours0. now apply Hmidnight, Hday.
Qed.

(** With an offset that never changes, local midnight is the latest whole
    number of local days that is not after [t]. *)
Lemma setHours0_fixedOffset (offset t : Z) :
  setHours0 (fixedOffset offset) t <= t
    < setHours0 (fixedOffset offset) t + msPerDay /\
  (setHours0 (fixedOffset offset) t + offset) mod msPerDay = 0.
Proof.
  unfold setHours0, UTC, LocalTime, Day, fixedOffset, msPerDay.
  cbn [ofUTC ofLocal].
  pose proof (Z.div_mod (t + offset) 86400000 ltac:(lia)) as Hd.
  pose proof (Z.mod_pos_bound (t + offset) 86400000 ltac:(lia)) as Hm.
  split; [ lia | ].
  replace ((t + offset) / 86400000 * 86400000 - offset + offset)
    with ((t + offset) / 86400000 * 86400000) by lia.
  apply Z.mod_mul. lia.
Qed.

Lemma fixedOffset_advances (offset : Z) : calendarAdvances (fixedOffset offset).
Proof.
  unfold calendarAdvances, UTC, LocalTime, Day, fixedOffset, msPerDay.
  cbn [ofUTC ofLocal]. split.
  - intros t t' H. apply Z.div_le_mono; lia.
  - intros d d' H. lia.
Qed.

(** The calendar of London advances, across both changes of the clock. *)
Lemma london_advances : calendarAdvances Examples.london.
Proof.
  unfold calendarAdvances, UTC, LocalTime, Day, Examples.london, msPerDay.
  cbn [ofUTC ofLocal]. split.
  - intros t t' H.
    destruct (1711846800000 <=? t) eqn:E1; destruct (t <? 1729990800000) eqn:E2;
      destruct (1711846800000 <=? t') eqn:E3;
      destruct (t' <? 1729990800000) eqn:E4;
      cbn [andb];
      rewrite ?Z.leb_le, ?Z.leb_gt, ?Z.ltb_lt, ?Z.ltb_ge in *;
      try lia; try (apply Z.div_le_mono; lia).
    apply Z.le_trans with 20023.
    + apply Z.lt_succ_r. apply Z.div_lt_upper_bound; lia.
    + apply Z.div_le_lower_bound; lia.
  - intros d d' H.
    assert (d = d' \/ d + 1 <= d') as [-> | Hlt] by lia; [ lia | ].
    destruct (1711850400000 <=? d * 86400000);
      destruct (d * 86400000 <? 1729994400000);
      destruct (1711850400000 <=? d' * 86400000);
      destruct (d' * 86400000 <? 1729994400000);
      cbn [andb]; lia.
Qed.

(** The day numbers follow the calendar: the epoch is day 0, the day after
    the last of a month is the first of the next, the day after 31
    December is 1 January. *)

Lemma isLeapYear_true (y : Z) :
  isLeapYear y = true <-> (y mod 4 = 0 /\ y mod 100 <> 0) \/ y mod 400 = 0.
Proof.
  unfold isLeapYear.
  rewrite orb_true_iff, andb_true_iff, negb_true_iff, !Z.eqb_eq, Z.eqb_neq.
  reflexivity.
Qed.

Lemma DayFromYear_succ (y : Z) :
  DayFromYear (y + 1) = DayFromYear y + (if isLeapYear y then 366 else 365).
Proof.
  unfold DayFromYear. destruct (isLeapYear y) eqn:E.
  - apply isLeapYear_true in E.
    Z.to_euclidean_division_equations. lia.
  - assert (~ ((y mod 4 = 0 /\ y mod 100 <> 0) \/ y mod 400 = 0)) as E'
      by (rewrite <- isLeapYear_true; congruence).
    Z.to_euclidean_division_equations. lia.
Qed.

Lemma MakeDay_epoch : MakeDay 1970 1 1 = 0.
Proof. reflexivity. Qed.

Lemma MakeDay_next_month (y m : Z) :
  1 <= m < 12 -> MakeDay y m (daysInMonth y m) + 1 = MakeDay y (m + 1) 1.
Proof.
  intros H. unfold MakeDay, daysBeforeMonth, daysInMonth.
  assert (m = 1 \/ m = 2 \/ m = 3 \/ m = 4 \/ m = 5 \/ m = 6 \/ m = 7 \/
          m = 8 \/ m = 9 \/ m = 10 \/ m = 11) as Hm by lia.
  destruct (isLeapYear y);
    repeat (destruct Hm as [Hm | Hm]; [ subst m; simpl; lia | ]);
    subst m; simpl; lia.
Qed.

Lemma MakeDay_next_year (y : Z) :
  MakeDay y 12 31 + 1 = MakeDay (y + 1) 1 1.
Proof.
  unfold MakeDay, daysBeforeMonth. rewrite DayFromYear_succ.
  change (2 <? 12) with true. change (2 <? 1) with false.
  rewrite andb_true_r, andb_false_r. simpl nth.
  destruct (isLeapYear y); lia.
Qed.

(** *** Sorting keeps the elements *)

Lemma insert_In {A : Type} (cmp : A -> A -> number) (x y : A) (l : list A) :
  In y (insert cmp x l) <-> y = x \/ In y l.
Proof.
  induction l as [| z l IH]; simpl.
  - intuition congruence.
  - destruct (isNegative (cmp z x)); simpl; rewrite ?IH; intuition congruence.
Qed.

Lemma sort_In {A : Type} (cmp : A -> A -> number) (y : A) (l : list A) :
  In y (sort cmp l) <-> In y l.
Proof.
  unfold sort. induction l as [| x l IH]; simpl; [ reflexivity | ].
  rewrite insert_In, IH. intuition congruence.
Qed.

(** The engine's sort keeps the elements, whatever the comparator. *)
Lemma arraySort_In (js : Engine) {A : Type} (cmp : A -> A -> number) (y : A)
  (l : list A) :
  In y (arraySort js cmp l) <-> In y l.
Proof.
  pose proof (arraySort_rearranges js A cmp l) as H. split.
  - apply Permutation_in. now apply Permutation_sym.
  - now apply Permutation_in.
Qed.

End JsFacts.

(** ** Properties of the shared server functions *)

Module ServerFacts.
Import Js Server Spec JsFacts.


(** With an offset that never changes, every day has its midnight. *)
Lemma fixedOffset_isLocalMidnight (offset now : Z) :
  isLocalMidnightOf (fixedOffset offset) now
    (setHours0 (fixedOffset offset) now).
Proof.
  unfold isLocalMidnightOf, setHours0, UTC, LocalTime, fixedOffset.
  cbn [ofUTC ofLocal]. split; lia.
Qed.


(** What a resolved episode takes from the file name alone. *)
Lemma getEpisodeDetails_filename (filename : string) (metadata : JsValue)
  (ep : Episode) :
  getEpisodeDetails filename metadata = Return ep ->
  Server.filename ep = filename /\
  releaseDate ep = parseReleaseDate filename.
Proof.
  unfold getEpisodeDetails. intros H.
  apply bind_Return_inv in H. destruct H as [eps [_ H]].
  apply bind_Return_inv in H. destruct H as [entry [_ H]].
  apply bind_Return_inv in H. destruct H as [dur [_ H]].
  inversion H; subst. simpl. split; reflexivity.
Qed.


(** Every file whose name ends in [.mp3] passes the filter of the feed. *)
Lemma isSupported_mp3 (file : string) :
  endsWith file ".mp3" = true -> isSupported file = true.
Proof.
  intros H. apply endsWith_true in H. destruct H as [p ->].
  unfold isSupported, extensionOf, toLowerCase.
  rewrite mapChars_append.
  change (mapChars lowerChar ".mp3") with (String "." "mp3").
  rewrite pop_split_app_sep by reflexivity. reflexivity.
Qed.

Lemma digitsValue_nonneg (s : string) (acc : Z) :
  digits s = true -> 0 <= acc -> 0 <= digitsValue acc s.
Proof.
  unfold digits. revert acc.
  induction s as [| c s IH]; cbn [digitsValue allChars]; intros acc H Hacc.
  - assumption.
  - apply andb_prop in H. destruct H as [Hc Hs]. apply IH; [ assumption | ].
    unfold isDigit in Hc. cbv zeta in Hc.
    apply andb_prop in Hc. destruct Hc as [Hc _].
    apply N.leb_le in Hc. lia.
Qed.

Lemma safe_Int (z : Z) : Z.abs z <= maxSafe -> safe z = Int z.
Proof.
  intros H. unfold safe.
  destruct (Z.abs z <=? maxSafe) eqn:E; [ reflexivity | ].
  apply Z.leb_gt in E. lia.
Qed.

Lemma occurrences_append (c : ascii) (a b : string) :
  occurrences c (a ++ b) = (occurrences c a + occurrences c b)%nat.
Proof.
  induction a as [| x a IH]; simpl; [ reflexivity | ]. rewrite IH. lia.
Qed.

Lemma allChars_no_occurrence (p : ascii -> bool) (c : ascii) (s : string) :
  p c = false -> allChars p s = true -> occurrences c s = 0%nat.
Proof.
  intros Hc. induction s as [| x s IH]; simpl; [ reflexivity | ].
  intros H. apply andb_prop in H. destruct H as [Hx Hs].
  destruct (Ascii.eqb x c) eqn:E; [ | auto ].
  apply Ascii.eqb_eq in E. congruence.
Qed.

(** A decimal integer holds no colon. *)
Lemma decimalInteger_no_colon (part : string) (z : Z) :
  decimalInteger part z -> occurrences ":" part = 0%nat.
Proof.
  intros [ws [ds [ws' [Hws [Hws' [[_ Hds] H]]]]]].
  pose proof (allChars_no_occurrence isSpace ":" ws eq_refl Hws) as H1.
  pose proof (allChars_no_occurrence isSpace ":" ws' eq_refl Hws') as H2.
  pose proof (allChars_no_occurrence isDigit ":" ds eq_refl Hds) as H3.
  destruct H as [[-> _] | [[-> _] | [-> _]]];
    rewrite !occurrences_append, H1, H2, H3; reflexivity.
Qed.

(** [parseDuration] on a string that is not empty looks at the parts only. *)
Lemma parseDuration_nonempty (s : string) :
  s <> EmptyString ->
  parseDuration (JStr s) =
  match map Number (split ":" s) with
  | [p0; p1] => Return (JNum (add (mul p0 (Int 60)) p1))
  | [p0; p1; p2] =>
      Return (JNum (add (add (mul p0 (Int 3600)) (mul p1 (Int 60))) p2))
  | _ => Return JNull
  end.
Proof.
  intros H. unfold parseDuration. simpl truthy.
  destruct (String.eqb s "") eqn:E; [ | reflexivity ].
  apply String.eqb_eq in E. contradiction.
Qed.

Lemma append_colon_nonempty (a b : string) :
  (a ++ String ":" b)%string <> EmptyString.
Proof. destruct a; discriminate. Qed.

Lemma mul_NaN_l (n : number) : mul NaN n = NaN.
Proof. reflexivity. Qed.

Lemma add_NaN_l (n : number) : add NaN n = NaN.
Proof. reflexivity. Qed.

Lemma add_NaN_r (n : number) : add n NaN = NaN.
Proof. destruct n; reflexivity. Qed.



(** *** Lookups *)

Lemma lookup_In {A : Type} (k : string) (l : list (string * A)) (v : A) :
  lookup k l = Some v -> In (k, v) l.
Proof.
  induction l as [| [k' v'] l IH]; simpl; [ discriminate | ].
  destruct (String.eqb k' k) eqn:E.
  - apply String.eqb_eq in E. intros H. inversion H; subst. now left.
  - intros H. right. auto.
Qed.

Lemma lookup_key_In {A : Type} (k : string) (l : list (string * A)) :
  In k (map fst l) -> exists v, lookup k l = Some v.
Proof.
  induction l as [| [k' v'] l IH]; simpl; [ contradiction | ].
  intros H. destruct (String.eqb k' k) eqn:E; [ eauto | ].
  destruct H as [H | H]; [ | auto ].
  apply String.eqb_neq in E. contradiction.
Qed.

(** *** Loops *)

Lemma filter_all {A : Type} (keep : A -> bool) (l : list A) :
  Forall (fun a => keep a = true) l -> filter keep l = l.
Proof.
  induction 1 as [| a l Ha _ IH]; simpl; [ reflexivity | ].
  now rewrite Ha, IH.
Qed.

(** Every item a loop collects was added for some element of the list. *)
Lemma collectM_In {A B : Type} (f : A -> result (option B)) (l : list A)
  (bs : list B) :
  collectM f l = Return bs ->
  forall b, In b bs -> exists a, In a l /\ f a = Return (Some b).
Proof.
  revert bs. induction l as [| a l IH]; simpl; intros bs H b Hb.
  - inversion H; subst. contradiction.
  - apply bind_Return_inv in H. destruct H as [o [Hf H]].
    apply bind_Return_inv in H. destruct H as [bs0 [Hm H]].
    inversion H; subst. destruct o as [b0 |].
    + destruct Hb as [-> | Hb].
      * exists a. split; [ now left | assumption ].
      * destruct (IH _ Hm _ Hb) as [a' [Ha' Hfa']].
        exists a'. split; [ now right | assumption ].
    + destruct (IH _ Hm _ Hb) as [a' [Ha' Hfa']].
      exists a'. split; [ now right | assumption ].
Qed.

(** A loop whose body adds an item exactly for the elements that [keep]
    holds of collects one item per such element, in order. *)
Lemma collectM_filter {A B : Type} (f : A -> result (option B))
  (keep : A -> bool) (R : A -> B -> Prop) (l : list A) :
  (forall a, In a l ->
     if keep a then exists b, f a = Return (Some b) /\ R a b
     else f a = Return None) ->
  exists bs, collectM f l = Return bs /\ Forall2 R (filter keep l) bs.
Proof.
  induction l as [| a l IH]; simpl; intros H.
  - exists []. split; [ reflexivity | constructor ].
  - destruct IH as [bs [Hbs HR]]; [ intros a' Ha'; apply H; now right | ].
    specialize (H a (or_introl eq_refl)).
    destruct (keep a).
    + destruct H as [b [Hb HRb]]. exists (b :: bs).
      rewrite Hb, Hbs. simpl. split; [ reflexivity | now constructor ].
    + exists bs. rewrite H, Hbs. simpl. split; [ reflexivity | assumption ].
Qed.

(** The episodes of a listing are the resolutions of its files. *)
Lemma listEpisodes_In (js : Engine) (keep : string -> bool)
  (metadata : JsValue) (files : list string) (eps : list Episode) :
  listEpisodes js keep metadata files = Return eps ->
  forall e, In e eps ->
    In (filename e) files /\ keep (filename e) = true /\
    getEpisodeDetails (filename e) metadata = Return e.
Proof.
  unfold listEpisodes. intros H e He.
  apply bind_Return_inv in H. destruct H as [eps0 [Hm H]].
  inversion H; subst. apply arraySort_In in He.
  destruct (mapM_In _ _ _ Hm _ He) as [file [Hfile Hres]].
  destruct (getEpisodeDetails_filename _ _ _ Hres) as [Hname _].
  rewrite Hname. apply filter_In in Hfile. destruct Hfile as [H1 H2].
  repeat split; assumption.
Qed.

(** The files of a listing are the files that pass its filter, each
    once. *)
Lemma listEpisodes_names (js : Engine) (keep : string -> bool)
  (metadata : JsValue) (files : list string) (eps : list Episode) :
  listEpisodes js keep metadata files = Return eps ->
  Permutation (filter keep files) (map filename eps).
Proof.
  unfold listEpisodes. intros H.
  apply bind_Return_inv in H. destruct H as [eps0 [Hm H]].
  inversion H; subst.
  rewrite <- (mapM_map _ filename _ _
                (fun a b Hb => proj1 (getEpisodeDetails_filename _ _ _ Hb)) Hm).
  apply Permutation_map, arraySort_rearranges.
Qed.

(** *** Handlers *)

Lemma checkSecret_inv (env : Env) (req : Request) (next : Response) :
  statusOf (checkSecret env req next) <> 403 ->
  checkSecret env req next = next.
Proof.
  unfold checkSecret. destruct (token req) as [t |]; simpl; [ | congruence ].
  destruct (String.eqb t (SECRET_TOKEN env)); simpl; congruence.
Qed.

Lemma checkSecret_ok (env : Env) (req : Request) (next : Response) :
  token req = Some (SECRET_TOKEN env) -> checkSecret env req next = next.
Proof.
  unfold checkSecret. intros ->. now rewrite String.eqb_refl.
Qed.

Lemma orServerError_inv (r : result Response) (resp : Response) :
  orServerError r = resp -> statusOf resp <> 500 -> r = Return resp.
Proof.
  destruct r as [x | e]; simpl; intros H Hs; [ congruence | ].
  subst. unfold serverError in Hs. simpl in Hs. congruence.
Qed.

Lemma checkSecret_pass (env : Env) (req : Request) (next resp : Response) :
  checkSecret env req next = resp ->
  statusOf resp <> 403 ->
  next = resp /\ forall next', checkSecret env req next' = next'.
Proof.
  unfold checkSecret. destruct (token req) as [t |].
  - destruct (String.eqb t (SECRET_TOKEN env)).
    + intros H _. split; [ assumption | reflexivity ].
    + intros <-. simpl. congruence.
  - intros <-. simpl. congruence.
Qed.



Lemma parseReleaseDate_prefix (m rest : string) :
  conforms dateRe m = true ->
  parseReleaseDate (m ++ rest) = Some (newDate m).
Proof.
  intros Hc. unfold parseReleaseDate, dateMatch.
  now rewrite (matchPrefix_conforms _ _ rest Hc).
Qed.



(** The object given to [feed.addItem] for [e] is the item of [e]. *)
Lemma itemOf_feedItem (env : Env) (req : Request) (hosted : bool) (e : Episode)
  (other : Date) (size : JsValue) :
  itemOf env req hosted e
    (feedItem e (sourceUrl env req hosted (filename e))
       (dateOr (releaseDate e) other) size).
Proof.
  unfold itemOf, feedItem.
  cbn [item_title item_description item_url item_date enclosure_url
       enclosure_type itunesAuthor itunesDuration itunesExplicit
       itunesSubtitle itunesImage itunesKeywords].
  repeat split. intros d ->. reflexivity.
Qed.

Lemma itemOf_type (env : Env) (req : Request) (hosted : bool) (e : Episode)
  (it : FeedItem) :
  itemOf env req hosted e it ->
  enclosure_type it = lookup (extensionOf (filename e)) SUPPORTED_FORMATS.
Proof. intros [_ [_ [_ [_ [H _]]]]]. exact H. Qed.

(** The loop of [/feed.xml] adds an item only for a released episode, and
    it is the item of that episode. *)
Lemma Rev1_addItem_Some (env : Env) (req : Request) (e : Episode) (it : FeedItem) :
  Rev1.addItem env req e = Return (Some it) ->
  released env e = true /\ itemOf env req false e it.
Proof.
  unfold Rev1.addItem. destruct (released env e); [ | discriminate ].
  intros H. apply bind_Return_inv in H. destruct H as [st [_ H]].
  inversion H; subst. split; [ reflexivity | ].
  apply (itemOf_feedItem env req false).
Qed.

Lemma Rev2_addItem_Some (env : Env) (req : Request) (e : Episode) (it : FeedItem) :
  Rev2.addItem env req e = Return (Some it) ->
  released env e = true /\ itemOf env req (isGlitch env) e it.
Proof.
  unfold Rev2.addItem.
  destruct (released env e); [ | discriminate ].
  destruct (isGlitch env).
  - destruct (lookup (filename e) (assets (getGlitchAssets env))) as [a |] eqn:Ha;
      [ | discriminate ].
    destruct (truthy (asset_url a)); [ | discriminate ].
    intros H. inversion H; subst. split; [ reflexivity | ].
    pose proof (itemOf_feedItem env req true e (TimeValue (now env))
                  (orElse (asset_size a) (JNum (Int 0)))) as Hitem.
    unfold sourceUrl in Hitem. rewrite Ha in Hitem. exact Hitem.
  - intros H. apply bind_Return_inv in H. destruct H as [st [_ H]].
    inversion H; subst. split; [ reflexivity | ].
    apply (itemOf_feedItem env req false).
Qed.





(** The date of a prefix that denotes a day of the calendar is midnight
    UTC of that day. *)
Lemma daysInMonth_le_31 (y m : Z) : daysInMonth y m <= 31.
Proof.
  unfold daysInMonth.
  destruct (m =? 2); [ destruct (isLeapYear y); lia | ].
  destruct ((m =? 4) || (m =? 6) || (m =? 9) || (m =? 11)); lia.
Qed.

Lemma newDate_valid (m : string) :
  conforms dateRe m = true ->
  validCalendarDate m = true ->
  newDate m = TimeValue (midnightUTC (yearOf m) (monthOf m) (dayOf m)).
Proof.
  intros Hc Hv. unfold newDate. rewrite (matchPrefix_matched _ _ Hc).
  fold (yearOf m). fold (monthOf m). fold (dayOf m).
  unfold validCalendarDate in Hv.
  apply andb_prop in Hv. destruct Hv as [Hv H4].
  apply andb_prop in Hv. destruct Hv as [Hv H3].
  apply andb_prop in Hv. destruct Hv as [H1 H2].
  rewrite H1, H2, H3. cbn [andb].
  pose proof (daysInMonth_le_31 (yearOf m) (monthOf m)) as Hd.
  apply Z.leb_le in H4.
  destruct (dayOf m <=? 31) eqn:E; [ reflexivity | ].
  apply Z.leb_gt in E. lia.
Qed.

Lemma conforms_app (p q : list cls) (a b : string) :
  conforms p a = true -> conforms q b = true ->
  conforms (p ++ q) (a ++ b) = true.
Proof.
  revert a. induction p as [| k p IH]; intros [| c a]; simpl;
    try discriminate; [ auto | ].
  intros H Hq. apply andb_prop in H. destruct H as [Hk Hp].
  now rewrite Hk, (IH _ Hp Hq).
Qed.

(** The default title of [YYYY-MM-DD_rest.mp3] is [rest] with spaces for
    underscores. *)
Lemma defaultTitle_dated_mp3 (m rest : string) :
  conforms dateRe m = true ->
  defaultTitle (m ++ "_" ++ rest ++ ".mp3") = replaceAllChar "_" " " rest.
Proof.
  intros Hc. unfold defaultTitle, stripDatePrefix, stripMp3.
  replace (m ++ "_" ++ rest ++ ".mp3")%string
    with ((m ++ "_") ++ (rest ++ ".mp3"))%string
    by (rewrite append_assoc; reflexivity).
  rewrite (matchPrefix_conforms (dateRe ++ [Lit "_"]) (m ++ "_"))
    by (apply conforms_app; [ assumption | reflexivity ]).
  now rewrite (proj2 (stripSuffix_Some ".mp3" (rest ++ ".mp3") rest) eq_refl).
Qed.

(** [/episodes] of the first revision never answers with a listing: its
    request for the directory throws, whatever the directory holds. *)
Lemma Rev1_episodes_never_lists (env : Env) (req : Request) :
  Rev1.episodes env req = Json 403 (errorBody "Invalid token") \/
  Rev1.episodes env req = serverError.
Proof.
  unfold Rev1.episodes, checkSecret.
  destruct (token req) as [t |]; [ | now left ].
  destruct (String.eqb t (SECRET_TOKEN env)); [ now right | now left ].
Qed.

End ServerFacts.

(** ** The properties of the specification *)

Module Properties.
Import Js Server Spec JsFacts ServerFacts.



(** C8, as stated, fails: at Casey station on 4 March 2010 the episode of
    that day was out at 14:59 UTC and no longer out a minute later, when the
    station's clock went back from 02:00 of 5 March to 23:00 of 4 March and
    with it the local day. *)
Lemma release_gate_not_monotonic_counterexample :
  let d := parseReleaseDate "2010-03-04_Thaw.mp3" in
  let n := 1267714740000 in
  let n' := 1267714800000 in
  d = Some (TimeValue (midnightUTC 2010 3 4)) /\
  n < n' /\
  shouldReleaseEpisode Examples.casey n d = true /\
  shouldReleaseEpisode Examples.casey n' d = false.
Proof.
  repeat split; reflexivity.
Qed.

(** C8, amended. In a time zone whose calendar advances (the local day
    never goes back as time goes on, and a later day begins at a later
    instant) the release gate is monotonic in the current date: an episode
    the gate lets through at [n] it lets through at every later [n']. *)
Theorem release_gate_monotonic (tza : LocalTZA) (d : option Date) (n n' : Z) :
  calendarAdvances tza ->
  shouldReleaseEpisode tza n d = true ->
  n < n' ->
  shouldReleaseEpisode tza n' d = true.
Proof.
  intros Hzone H Hlt. destruct d as [[t |] |]; simpl in *;
    [ | discriminate | reflexivity ].
  apply Z.leb_le in H. apply Z.leb_le.
  pose proof (setHours0_mono tza n n' Hzone) as Hm. lia.
Qed.

(** In London, from 23:30 UTC of 26 October 2024 to 23:30 UTC of the day
    after, across the change of the clock. *)
Lemma release_gate_monotonic_witness :
  calendarAdvances Examples.london /\
  shouldReleaseEpisode Examples.london 1729985400000
    (Some (TimeValue (midnightUTC 2024 10 26))) = true /\
  1729985400000 < 1730071800000 /\
  shouldReleaseEpisode Examples.london 1730071800000
    (Some (TimeValue (midnightUTC 2024 10 26))) = true.
Proof.
  split; [ exact london_advances | ].
  split; [ reflexivity | split; [ reflexivity | ] ].
  apply (release_gate_monotonic Examples.london
           (Some (TimeValue (midnightUTC 2024 10 26)))
           1729985400000 1730071800000);
    [ exact london_advances | reflexivity | reflexivity ].
Defined.

(** C3 (the code departs from it). At a file name with a supported
    extension other than [.mp3] the release date is the date of the prefix,
    but the default title keeps the extension: [getEpisodeDetails] strips
    [.mp3] only. *)
Theorem default_title_keeps_m4a_extension :
  exists ep,
    getEpisodeDetails "2024-12-02_Second_Day.m4a" emptyMetadata = Return ep /\
    isSupported (filename ep) = true /\
    releaseDate ep = Some (TimeValue (midnightUTC 2024 12 2)) /\
    title ep = JStr "Second Day.m4a" /\
    title ep <> JStr "Second Day".
Proof.
  eexists. split; [ reflexivity | ]. simpl.
  split; [ reflexivity | split; [ reflexivity | split; [ reflexivity | ] ] ].
  discriminate.
Qed.

(** C9 (the code departs from it). A metadata document that has a [podcast]
    section and no [episodes] mapping is returned by [loadMetadata] as it
    is, resolving a file name against it throws, and the feed of a
    directory with that file answers 500. *)
Theorem resolution_throws_without_episodes :
  let document :=
    JObj [("podcast", JObj [("title", JStr "My Awesome Advent Calendar")])] in
  let file := "2024-12-01_First_Day_Of_Christmas.mp3" in
  loadMetadata (Some document) = document /\
  getEpisodeDetails file (loadMetadata (Some document)) = Throw TypeError /\
  Rev1.feed_xml (Examples.localServerWith [file] Examples.dec25 document)
                (Examples.request "") = serverError.
Proof.
  repeat split; reflexivity.
Qed.

(** C5, as stated, fails: a two-part duration with parts that are not
    numbers converts to NaN, not to "no duration". *)
Lemma parseDuration_non_numeric_counterexample :
  nonNumeric "5m" /\
  parseDuration (JStr "5m:30s") = Return (JNum NaN) /\
  parseDuration (JStr "5m:30s") <> Return JNull.
Proof.
  split; [ | split; [ reflexivity | discriminate ] ].
  split; [ reflexivity | ].
  rewrite StringNumericLiteral_iff. intros [H | H]; discriminate.
Qed.

(** C5, amended. [parseDuration] never throws on a string. It answers null
    exactly for the empty string and for a wrong number of parts (not two,
    not three). [M:SS] converts to [M * 60 + SS] and [H:MM:SS] to
    [H * 3600 + MM * 60 + SS] when the parts are decimal integers (digits,
    signed or not, with white space around them or not) and the magnitudes
    stay in the range of the safe integers. A two-part or three-part string
    of ASCII characters with a part that is no numeric string converts to
    NaN. *)
Theorem parseDuration_spec (s : string) :
  (exists v, parseDuration (JStr s) = Return v) /\
  (parseDuration (JStr s) = Return JNull <->
   s = EmptyString \/
   (occurrences ":" s <> 1%nat /\ occurrences ":" s <> 2%nat)) /\
  (forall (m ss : string) (x y : Z),
      s = (m ++ ":" ++ ss)%string ->
      decimalInteger m x -> decimalInteger ss y ->
      Z.abs x * 60 + Z.abs y <= maxSafe ->
      parseDuration (JStr s) = Return (JNum (Int (x * 60 + y)))) /\
  (forall (h m ss : string) (x y z : Z),
      s = (h ++ ":" ++ m ++ ":" ++ ss)%string ->
      decimalInteger h x -> decimalInteger m y -> decimalInteger ss z ->
      Z.abs x * 3600 + Z.abs y * 60 + Z.abs z <= maxSafe ->
      parseDuration (JStr s) = Return (JNum (Int (x * 3600 + y * 60 + z)))) /\
  (forall a b : string,
      s = (a ++ ":" ++ b)%string ->
      occurrences ":" a = 0%nat -> occurrences ":" b = 0%nat ->
      nonNumeric a \/ nonNumeric b ->
      parseDuration (JStr s) = Return (JNum NaN)) /\
  (forall a b c : string,
      s = (a ++ ":" ++ b ++ ":" ++ c)%string ->
      occurrences ":" a = 0%nat -> occurrences ":" b = 0%nat ->
      occurrences ":" c = 0%nat ->
      nonNumeric a \/ nonNumeric b \/ nonNumeric c ->
      parseDuration (JStr s) = Return (JNum NaN)).
Proof.
  split; [ | split; [ | split; [ | split; [ | split ] ] ] ].
  - destruct s as [| c s]; [ eexists; reflexivity | ].
    rewrite parseDuration_nonempty by discriminate.
    destruct (map Number (split ":" (String c s))) as [| p0 [| p1 [| p2 [| p3 l]]]];
      eexists; reflexivity.
  - destruct s as [| c s].
    + split; [ now left | reflexivity ].
    + rewrite parseDuration_nonempty by discriminate.
      pose proof (split_length ":" (String c s)) as Hl.
      rewrite <- (length_map Number) in Hl.
      remember (occurrences ":" (String c s)) as n eqn:Hn. clear Hn.
      destruct (map Number (split ":" (String c s))) as [| p0 [| p1 [| p2 [| p3 l]]]];
        cbn [List.length] in Hl.
      * discriminate.
      * split; [ intros _; right; lia | reflexivity ].
      * split; [ discriminate | ]. intros [H | [H1 H2]]; [ discriminate | lia ].
      * split; [ discriminate | ]. intros [H | [H1 H2]]; [ discriminate | lia ].
      * split; [ intros _; right; lia | reflexivity ].
  - intros m ss x y -> Hm Hss Hb.
    rewrite parseDuration_nonempty by apply append_colon_nonempty.
    simpl append.
    rewrite split_app_sep by now apply (decimalInteger_no_colon _ x).
    rewrite split_no_sep by now apply (decimalInteger_no_colon _ y).
    simpl map.
    rewrite (Number_decimalInteger _ _ Hm), (Number_decimalInteger _ _ Hss).
    rewrite (safe_Int x), (safe_Int y) by lia.
    cbn [mul]. rewrite (safe_Int (x * 60)) by lia.
    cbn [add]. rewrite safe_Int by lia. reflexivity.
  - intros h m ss x y z -> Hh Hm Hss Hb.
    rewrite parseDuration_nonempty by apply append_colon_nonempty.
    simpl append.
    rewrite split_app_sep by now apply (decimalInteger_no_colon _ x).
    rewrite split_app_sep by now apply (decimalInteger_no_colon _ y).
    rewrite split_no_sep by now apply (decimalInteger_no_colon _ z).
    simpl map.
    rewrite (Number_decimalInteger _ _ Hh), (Number_decimalInteger _ _ Hm),
            (Number_decimalInteger _ _ Hss).
    rewrite (safe_Int x), (safe_Int y), (safe_Int z) by lia.
    cbn [mul]. rewrite (safe_Int (x * 3600)), (safe_Int (y * 60)) by lia.
    cbn [add]. rewrite (safe_Int (x * 3600 + y * 60)) by lia.
    cbn [add]. rewrite safe_Int by lia. reflexivity.
  - intros a b -> Ha Hb Hn.
    rewrite parseDuration_nonempty by apply append_colon_nonempty.
    simpl append.
    rewrite split_app_sep by assumption.
    rewrite split_no_sep by assumption.
    simpl map. destruct Hn as [Hn | Hn]; rewrite (Number_nonNumeric _ Hn).
    + reflexivity.
    + now rewrite add_NaN_r.
  - intros a b c -> Ha Hb Hc Hn.
    rewrite parseDuration_nonempty by apply append_colon_nonempty.
    simpl append.
    rewrite split_app_sep by assumption.
    rewrite split_app_sep by assumption.
    rewrite split_no_sep by assumption.
    simpl map. destruct Hn as [Hn | [Hn | Hn]]; rewrite (Number_nonNumeric _ Hn).
    + reflexivity.
    + destruct (mul (Number a) (Int 3600)); reflexivity.
    + now rewrite add_NaN_r.
Qed.

Lemma parseDuration_spec_witness :
  parseDuration (JStr "5:30") = Return (JNum (Int 330)) /\
  parseDuration (JStr "1:02:03") = Return (JNum (Int 3723)) /\
  parseDuration (JStr "-1:30") = Return (JNum (Int (-30))) /\
  parseDuration (JStr "abc:1") = Return (JNum NaN) /\
  parseDuration (JStr "1:xx:30 min") = Return (JNum NaN).
Proof.
  assert (forall s, s <> EmptyString -> digits s = true ->
                    decimalInteger s (digitsValue 0 s)) as Hdigits
    by exact digits_decimalInteger.
  assert (forall s, allChars isAscii s = true ->
                    trim s <> EmptyString ->
                    isNumericLiteral (trim s) = false -> nonNumeric s) as Hnon.
  { intros s Hascii Ht Hl. split; [ exact Hascii | ].
    rewrite StringNumericLiteral_iff. intros [H | H]; congruence. }
  split; [ | split; [ | split; [ | split ] ] ].
  - destruct (parseDuration_spec "5:30") as [_ [_ [H _]]].
    apply (H "5" "30" 5 30); [ reflexivity | | | ].
    + apply (Hdigits "5"); [ discriminate | reflexivity ].
    + apply (Hdigits "30"); [ discriminate | reflexivity ].
    + vm_compute. discriminate.
  - destruct (parseDuration_spec "1:02:03") as [_ [_ [_ [H _]]]].
    apply (H "1" "02" "03" 1 2 3); [ reflexivity | | | | ].
    + apply (Hdigits "1"); [ discriminate | reflexivity ].
    + apply (Hdigits "02"); [ discriminate | reflexivity ].
    + apply (Hdigits "03"); [ discriminate | reflexivity ].
    + vm_compute. discriminate.
  - destruct (parseDuration_spec "-1:30") as [_ [_ [H _]]].
    apply (H "-1" "30" (-1) 30); [ reflexivity | | | ].
    + exists EmptyString, "1"%string, EmptyString.
      repeat split; try reflexivity; [ discriminate | ].
      right. right. split; reflexivity.
    + apply (Hdigits "30"); [ discriminate | reflexivity ].
    + vm_compute. discriminate.
  - destruct (parseDuration_spec "abc:1") as [_ [_ [_ [_ [H _]]]]].
    apply (H "abc" "1"); [ reflexivity | reflexivity | reflexivity | ].
    left. apply Hnon; [ reflexivity | discriminate | reflexivity ].
  - destruct (parseDuration_spec "1:xx:30 min") as [_ [_ [_ [_ [_ H]]]]].
    apply (H "1" "xx" "30 min");
      [ reflexivity | reflexivity | reflexivity | reflexivity | ].
    right. right. apply Hnon; [ reflexivity | discriminate | reflexivity ].
Defined.













(** C6, as stated, fails: with an [.m4a] file of the past and an [.mp3]
    file of the future in the directory, [/feed.xml] holds the first alone
    and [/episodes] the second alone. *)
Lemma listing_differs_from_feed_counterexample :
  let env := Examples.localServer
               ["2024-12-02_Second_Day.m4a"; "2099-01-01_Future.mp3"]
               Examples.dec25 in
  exists listed fed it,
    Rev2.episodes env (Examples.request "") = Listing (JObj []) [listed] /\
    filename listed = "2099-01-01_Future.mp3" /\
    Rev2.feed_xml env (Examples.request "") = Feed (JObj []) [it] /\
    itemOf env (Examples.request "") false fed it /\
    filename fed = "2024-12-02_Second_Day.m4a".
Proof.
  eexists. eexists. eexists.
  split; [ reflexivity | ]. split; [ reflexivity | ].
  split; [ reflexivity | ]. split.
  - apply (itemOf_feedItem _ _ false
             {| filename := "2024-12-02_Second_Day.m4a";
                releaseDate := Some (TimeValue 1733097600000);
                title := JStr "Second Day.m4a";
                description := JStr "Episode: Second Day.m4a";
                author := JUndefined;
                duration := JNull;
                explicit := JUndefined;
                categories := JArr [];
                keywords := JArr [];
                image := JUndefined |}
             (TimeValue Examples.dec25)).
  - reflexivity.
Qed.

(** C6, amended. In the second revision, when the two listings can be
    compared (served locally: every file of the directory with a supported
    extension ends in [.mp3], and can be sized if the gate lets it through;
    on the hosting platform: every asset has a URL) and [/episodes] answers
    with a collection, that collection holds one resolved episode for each
    file that takes part (the files with a supported extension; on the
    platform, the names with a supported extension that are not deleted) and
    none for any other file, and [/feed.xml] answers with the same channel
    metadata and with one item for each episode of the collection that
    passes the release gate, in the same order and carrying the same
    resolved fields. [/episodes] itself is not gated. *)
Theorem feed_is_gated_listing (env : Env) (req : Request) (podcast : JsValue)
  (eps : list Episode) :
  comparable env ->
  Rev2.episodes env req = Listing podcast eps ->
  (exists names, participants env names /\
                 Permutation names (map filename eps)) /\
  Forall (resolved env) eps /\
  exists items,
    Rev2.feed_xml env req = Feed podcast items /\
    Forall2 (itemOf env req (isGlitch env)) (filter (released env) eps) items.
Proof.
  intros Hcomp H. unfold Rev2.episodes in H.
  apply checkSecret_pass in H; [ | simpl; lia ]. destruct H as [H Htoken].
  apply orServerError_inv in H; [ | simpl; lia ].
  apply bind_Return_inv in H. destruct H as [eps' [Heps H]].
  inversion H; subst eps'. clear H.
  unfold Rev2.feed_xml. rewrite Htoken.
  unfold comparable in Hcomp. unfold participants. unfold Rev2.audioFiles in *.
  assert (forall items,
            collectM (Rev2.addItem env req) eps = Return items ->
            Forall2 (itemOf env req (isGlitch env)) (filter (released env) eps) items ->
            exists items',
              orServerError
                (items0 <- collectM (Rev2.addItem env req) eps ;;
                 Return (Feed (orElse (getField (loadMetadata (metadataSource env))
                                                "podcast") (JObj [])) items0))
              = Feed (orElse (getField (loadMetadata (metadataSource env))
                                       "podcast") (JObj [])) items' /\
              Forall2 (itemOf env req (isGlitch env))
                      (filter (released env) eps) items') as Hdone.
  { intros items Hitems HR. exists items. rewrite Hitems.
    split; [ reflexivity | assumption ]. }
  destruct (isGlitch env) eqn:Hmode.
  - (* hosted assets *)
    unfold isGlitch in Hmode.
    destruct (glitch env) as [g |] eqn:Hg; [ | discriminate ].
    unfold getGlitchAssets in Heps |- *. rewrite Hg in Heps |- *.
    split; [ | split ].
    + eexists. split; [ reflexivity | ].
      apply (listEpisodes_names _ _ _ _ _ Heps).
    + apply Forall_forall. intros e He.
      now destruct (listEpisodes_In _ _ _ _ _ Heps e He) as [_ [_ Hres]].
    + rewrite Heps. cbn [bind].
      destruct (collectM_filter (Rev2.addItem env req) (released env)
                  (itemOf env req true) eps) as [items [Hitems HR]];
        [ | now apply (Hdone items) ].
      intros e He.
      destruct (released env e) eqn:Hr.
      * destruct (listEpisodes_In _ _ _ _ _ Heps e He) as [Hin _].
        destruct (lookup_key_In _ _ Hin) as [a Ha].
        pose proof (lookup_In _ _ _ Ha) as Hina.
        rewrite Forall_forall in Hcomp. specialize (Hcomp _ Hina).
        simpl in Hcomp.
        pose proof (itemOf_feedItem env req true e (TimeValue (now env))
                      (orElse (asset_size a) (JNum (Int 0)))) as Hitem.
        unfold Rev2.addItem, isGlitch, getGlitchAssets.
        unfold sourceUrl, getGlitchAssets in Hitem.
        rewrite Hg in Hitem |- *. rewrite Ha in Hitem |- *.
        rewrite Hr, Hcomp. eauto.
      * unfold Rev2.addItem. now rewrite Hr.
  - (* local files *)
    unfold isGlitch in Hmode.
    destruct (glitch env) as [g |] eqn:Hg; [ discriminate | ].
    apply bind_Return_inv in Heps. destruct Heps as [files [Hfiles Heps]].
    specialize (Hcomp files Hfiles). rewrite Forall_forall in Hcomp.
    assert (filter isSupported files
            = filter (fun file => endsWith file ".mp3") files) as Hfilter.
    { apply filter_ext_in. intros file Hin.
      destruct (endsWith file ".mp3") eqn:E.
      - now apply isSupported_mp3.
      - destruct (isSupported file) eqn:Es; [ | reflexivity ].
        destruct (Hcomp file Hin Es) as [Hmp3 _]. congruence. }
    assert (listEpisodes (engine env) isSupported
              (loadMetadata (metadataSource env)) files = Return eps) as Heps'.
    { rewrite <- Heps. unfold listEpisodes. now rewrite Hfilter. }
    split; [ | split ].
    + exists (filter isSupported files). split; [ eauto | ].
      apply (listEpisodes_names _ _ _ _ _ Heps').
    + apply Forall_forall. intros e He.
      now destruct (listEpisodes_In _ _ _ _ _ Heps e He) as [_ [_ Hres]].
    + rewrite Hfiles. cbn [bind]. rewrite Heps'. cbn [bind].
      destruct (collectM_filter (Rev2.addItem env req) (released env)
                  (itemOf env req false) eps) as [items [Hitems HR]];
        [ | now apply (Hdone items) ].
      intros e He.
      destruct (released env e) eqn:Hr.
      * destruct (listEpisodes_In _ _ _ _ _ Heps' e He) as [Hin [Hsup Hres]].
        destruct (Hcomp _ Hin Hsup) as [_ Hstat].
        destruct (getEpisodeDetails_filename _ _ _ Hres) as [_ Hdate].
        unfold released in Hr. rewrite Hdate in Hr.
        destruct (Hstat Hr) as [st Hst].
        unfold Rev2.addItem, isGlitch, released.
        rewrite Hg, Hdate, Hr, Hst. cbn [bind].
        eexists. split; [ reflexivity | ].
        rewrite <- Hdate. apply (itemOf_feedItem env req false).
      * unfold Rev2.addItem. now rewrite Hr.
Qed.

(** A directory with a cover picture beside the episodes. *)
Lemma feed_is_gated_listing_witness :
  let env := Examples.localServer
               ["2024-12-01_First_Day.mp3"; "cover.jpg";
                "2099-01-01_Future.mp3"]
               Examples.dec25 in
  let req := Examples.request "" in
  comparable env /\
  exists podcast eps items,
    Rev2.episodes env req = Listing podcast eps /\
    Permutation ["2024-12-01_First_Day.mp3"; "2099-01-01_Future.mp3"]
                (map filename eps) /\
    Rev2.feed_xml env req = Feed podcast items /\
    List.length items = 1%nat /\
    Forall2 (itemOf env req false) (filter (released env) eps) items.
Proof.
  cbv zeta.
  assert (comparable (Examples.localServer
                        ["2024-12-01_First_Day.mp3"; "cover.jpg";
                         "2099-01-01_Future.mp3"]
                        Examples.dec25)) as Hcomp.
  { intros files Hfiles. inversion Hfiles; subst files.
    apply Forall_cons;
      [ | apply Forall_cons; [ | apply Forall_cons; [ | apply Forall_nil ] ] ];
      intros Hsup; try (vm_compute in Hsup; discriminate);
      (split; [ reflexivity | intros _; eexists; reflexivity ]). }
  split; [ exact Hcomp | ].
  eexists. eexists.
  edestruct (feed_is_gated_listing
               (Examples.localServer
                  ["2024-12-01_First_Day.mp3"; "cover.jpg";
                   "2099-01-01_Future.mp3"]
                  Examples.dec25)
               (Examples.request "")) as [[names [Hpart Hnames]] [_ [items [Hfeed Hitems]]]].
  - exact Hcomp.
  - reflexivity.
  - exists items. split; [ reflexivity | ].
    destruct Hpart as [files [Hfiles ->]]. inversion Hfiles; subst files.
    split; [ exact Hnames | ].
    split; [ exact Hfeed | ].
    split; [ | exact Hitems ].
    apply Forall2_length in Hitems. rewrite <- Hitems. reflexivity.
Defined.

End Properties.

(** ** Further properties of the handlers *)

Module HandlerFacts.
Import Js Server Spec Vocabulary JsFacts ServerFacts.

Lemma checkSecret_wrong (env : Env) (req : Request) (next : Response) :
  token req <> Some (SECRET_TOKEN env) ->
  checkSecret env req next = Json 403 (errorBody "Invalid token").
Proof.
  unfold checkSecret. intros H. destruct (token req) as [t |]; [ | reflexivity ].
  destruct (String.eqb t (SECRET_TOKEN env)) eqn:E; [ | reflexivity ].
  apply String.eqb_eq in E. congruence.
Qed.

Lemma checkSecret_token (env : Env) (req : Request) (next resp : Response) :
  checkSecret env req next = resp ->
  statusOf resp <> 403 ->
  token req = Some (SECRET_TOKEN env).
Proof.
  unfold checkSecret. destruct (token req) as [t |].
  - destruct (String.eqb t (SECRET_TOKEN env)) eqn:E.
    + apply String.eqb_eq in E. now subst.
    + intros <-. simpl. congruence.
  - intros <-. simpl. congruence.
Qed.

Lemma collectM_complete {A B : Type} (f : A -> result (option B)) (l : list A)
  (bs : list B) :
  collectM f l = Return bs ->
  forall a b, In a l -> f a = Return (Some b) -> In b bs.
Proof.
  revert bs. induction l as [| x l IH]; simpl; intros bs H a b Ha Hf.
  - contradiction.
  - apply bind_Return_inv in H. destruct H as [o [Hx H]].
    apply bind_Return_inv in H. destruct H as [bs0 [Hm H]].
    inversion H; subst. destruct Ha as [-> | Ha].
    + rewrite Hf in Hx. inversion Hx; subst. now left.
    + specialize (IH _ Hm _ _ Ha Hf). destruct o; [ now right | assumption ].
Qed.

Lemma hasOwnProperty_lookup {A : Type} (o : list (string * A)) (k : string) :
  hasOwnProperty o k = true <-> exists v, lookup k o = Some v.
Proof.
  unfold hasOwnProperty. destruct (lookup k o) as [v |].
  - split; eauto.
  - split; [ discriminate | intros [v Hv]; discriminate ].
Qed.

(** Where the calendar advances, the gate at a later clock reading lets
    through what it let through before. *)
Lemma released_later (env : Env) (n n' : Z) (e : Episode) :
  calendarAdvances (tza env) ->
  n <= n' ->
  released (atTime env n) e = true -> released (atTime env n') e = true.
Proof.
  unfold released, shouldReleaseEpisode. simpl. intros Hzone Hle.
  destruct (releaseDate e) as [[t |] |]; simpl; auto.
  rewrite !Z.leb_le. pose proof (setHours0_mono (tza env) n n' Hzone Hle). lia.
Qed.

End HandlerFacts.

Module HandlerProperties.
Import Js Server Spec Vocabulary JsFacts ServerFacts HandlerFacts.

(** A request whose token is not the secret is answered 403 with the same
    body by every handler of both revisions, whatever the directory, the
    metadata, the manifest and the clock hold. *)
Theorem wrong_token_forbidden (env : Env) (req : Request) :
  token req <> Some (SECRET_TOKEN env) ->
  let forbidden := Json 403 (errorBody "Invalid token") in
  Rev1.audio env req = forbidden /\
  Rev1.feed_xml env req = forbidden /\
  Rev1.episodes env req = forbidden /\
  Rev2.audio env req = forbidden /\
  Rev2.feed_xml env req = forbidden /\
  Rev2.episodes env req = forbidden.
Proof.
  intros H forbidden.
  unfold Rev1.audio, Rev1.feed_xml, Rev1.episodes,
         Rev2.audio, Rev2.feed_xml, Rev2.episodes.
  repeat split; now apply checkSecret_wrong.
Qed.

Lemma wrong_token_forbidden_witness :
  let env := Examples.localServer ["2024-12-01_First_Day.mp3"] Examples.dec25 in
  let req := {| token := Some "guess"; origin := "http://localhost:3000";
                basename := "2024-12-01_First_Day.mp3" |} in
  Rev1.audio env req = Json 403 (errorBody "Invalid token") /\
  Rev2.feed_xml env req = Json 403 (errorBody "Invalid token").
Proof.
  cbv zeta.
  destruct (wrong_token_forbidden
              (Examples.localServer ["2024-12-01_First_Day.mp3"] Examples.dec25)
              {| token := Some "guess"; origin := "http://localhost:3000";
                 basename := "2024-12-01_First_Day.mp3" |})
    as [H1 [_ [_ [_ [H5 _]]]]].
  - discriminate.
  - split; [ exact H1 | exact H5 ].
Defined.

(** [/audio] of the first revision streams a file exactly when the token is
    the secret, the file is the one asked for, it exists, its extension is
    a supported one, whose content type the response carries, and its
    episode resolves and passes the release gate. *)
Theorem audio_streams_iff (env : Env) (req : Request) (ct : option string)
  (file : string) :
  Rev1.audio env req = Stream ct file <->
  token req = Some (SECRET_TOKEN env) /\
  file = basename req /\
  access (fs env) file = true /\
  (exists mime, ct = Some mime /\
                lookup (extensionOf file) SUPPORTED_FORMATS = Some mime) /\
  (exists ep,
      getEpisodeDetails file (loadMetadata (metadataSource env)) = Return ep /\
      released env ep = true).
Proof.
  split.
  - intros H. pose proof (checkSecret_token _ _ _ _ H ltac:(simpl; lia)) as Htok.
    unfold Rev1.audio in H. rewrite (checkSecret_ok _ _ _ Htok) in H.
    destruct (access (fs env) (basename req)) eqn:Hacc; [ | discriminate ].
    cbn [negb] in H.
    destruct (hasOwnProperty SUPPORTED_FORMATS (extensionOf (basename req)))
      eqn:Hsup; [ | discriminate ].
    cbn [negb] in H.
    destruct (getEpisodeDetails (basename req) (loadMetadata (metadataSource env)))
      as [ep | e] eqn:Hep; [ | discriminate ].
    cbn [bind] in H.
    destruct (released env ep) eqn:Hrel; [ | discriminate ].
    cbn [negb orServerError] in H. inversion H; subst.
    apply hasOwnProperty_lookup in Hsup. destruct Hsup as [mime Hmime].
    repeat split; try assumption.
    + exists mime. split; assumption.
    + exists ep. split; [ assumption | assumption ].
  - intros [Htok [-> [Hacc [[mime [-> Hmime]] [ep [Hep Hrel]]]]]].
    unfold Rev1.audio. rewrite (checkSecret_ok _ _ _ Htok).
    rewrite Hacc. cbn [negb]. unfold hasOwnProperty. rewrite Hmime.
    cbn [negb]. rewrite Hep. cbn [bind]. rewrite Hrel. reflexivity.
Qed.

(** Off the hosting platform, [/audio] of the second revision answers as
    that of the first. *)
Theorem audio_revisions_agree_locally (env : Env) (req : Request) :
  glitch env = None -> Rev2.audio env req = Rev1.audio env req.
Proof.
  intros H. unfold Rev2.audio, Rev1.audio, isGlitch. now rewrite H.
Qed.

Lemma audio_revisions_agree_locally_witness :
  let env := Examples.localServer ["2024-12-01_First_Day.mp3"] Examples.dec25 in
  Rev2.audio env (Examples.request "2024-12-01_First_Day.mp3")
  = Rev1.audio env (Examples.request "2024-12-01_First_Day.mp3").
Proof.
  cbv zeta. apply audio_revisions_agree_locally. reflexivity.
Defined.

(** On the hosting platform, [/audio] of the second revision redirects to
    the URL of a live asset without looking at the file system, the
    metadata or the release date; a file the manifest marks as deleted is
    answered 404 even when it exists locally. *)
Theorem audio_hosted_skips_gate (env : Env) (req : Request) (g : GlitchAssets) :
  glitch env = Some g ->
  token req = Some (SECRET_TOKEN env) ->
  (has (deletedFiles g) (basename req) = true ->
   Rev2.audio env req = Json 404 (errorBody "File not found")) /\
  (forall a,
      has (deletedFiles g) (basename req) = false ->
      lookup (basename req) (assets g) = Some a ->
      truthy (asset_url a) = true ->
      Rev2.audio env req = Redirect (asset_url a)).
Proof.
  intros Hg Htok. unfold Rev2.audio, isGlitch, getGlitchAssets.
  rewrite (checkSecret_ok _ _ _ Htok), Hg. split.
  - intros ->. reflexivity.
  - intros a -> -> ->. reflexivity.
Qed.

Lemma audio_hosted_skips_gate_witness :
  let env := HostedExamples.server Examples.dec1 in
  Rev2.audio env (Examples.request "2024-12-01_Old.mp3")
    = Json 404 (errorBody "File not found") /\
  Rev2.audio env (Examples.request "2099-01-01_Future.mp3")
    = Redirect (JStr "https://cdn.example/u1/future.mp3").
Proof.
  cbv zeta. split.
  - refine (proj1 (audio_hosted_skips_gate (HostedExamples.server Examples.dec1)
                     (Examples.request "2024-12-01_Old.mp3") _ eq_refl eq_refl) _).
    reflexivity.
  - refine (proj2 (audio_hosted_skips_gate (HostedExamples.server Examples.dec1)
                     (Examples.request "2099-01-01_Future.mp3") _ eq_refl eq_refl)
              {| asset_url := JStr "https://cdn.example/u1/future.mp3";
                 asset_size := JNum (Int 5000);
                 asset_uuid := JStr "u1" |} _ _ _); reflexivity.
Defined.

(** Every item of a feed carries a content type, that of the supported
    extension of its file: the enclosure type is never left undefined. *)
Theorem feed_items_have_type (env : Env) (req : Request) (podcast : JsValue)
  (items : list FeedItem) :
  Rev1.feed_xml env req = Feed podcast items \/
  Rev2.feed_xml env req = Feed podcast items ->
  Forall (fun it => exists ext mime,
                      In (ext, mime) SUPPORTED_FORMATS /\
                      enclosure_type it = Some mime) items.
Proof.
  intros H. apply Forall_forall. intros it Hit.
  assert (exists e, isSupported (filename e) = true /\
                    enclosure_type it
                    = lookup (extensionOf (filename e)) SUPPORTED_FORMATS)
    as [e [Hsup Htype]].
  { destruct H as [H | H].
    - unfold Rev1.feed_xml in H.
      apply checkSecret_pass in H; [ | simpl; lia ]. destruct H as [H _].
      apply orServerError_inv in H; [ | simpl; lia ].
      apply bind_Return_inv in H. destruct H as [files [_ H]].
      apply bind_Return_inv in H. destruct H as [eps [Heps H]].
      apply bind_Return_inv in H. destruct H as [items' [Hc H]].
      inversion H; subst.
      destruct (collectM_In _ _ _ Hc _ Hit) as [e [Hin He]].
      destruct (listEpisodes_In _ _ _ _ _ Heps e Hin) as [_ [Hkeep _]].
      exists e. split; [ assumption | ].
      apply Rev1_addItem_Some in He. destruct He as [_ He].
      now apply itemOf_type in He.
    - unfold Rev2.feed_xml in H.
      apply checkSecret_pass in H; [ | simpl; lia ]. destruct H as [H _].
      apply orServerError_inv in H; [ | simpl; lia ].
      apply bind_Return_inv in H. destruct H as [eps [Heps H]].
      apply bind_Return_inv in H. destruct H as [items' [Hc H]].
      inversion H; subst.
      destruct (collectM_In _ _ _ Hc _ Hit) as [e [Hin He]].
      exists e. split.
      + unfold Rev2.audioFiles in Heps. destruct (isGlitch env).
        * destruct (listEpisodes_In _ _ _ _ _ Heps e Hin) as [_ [Hkeep _]].
          apply andb_prop in Hkeep. now destruct Hkeep.
        * apply bind_Return_inv in Heps. destruct Heps as [files [_ Heps]].
          now destruct (listEpisodes_In _ _ _ _ _ Heps e Hin) as [_ [Hkeep _]].
      + apply Rev2_addItem_Some in He. destruct He as [_ He].
        now apply itemOf_type in He. }
  unfold isSupported in Hsup. apply hasOwnProperty_lookup in Hsup.
  destruct Hsup as [mime Hmime].
  exists (extensionOf (filename e)), mime. split.
  - now apply lookup_In.
  - now rewrite Htype.
Qed.

Lemma feed_items_have_type_witness :
  let env := Examples.localServer
               ["2024-12-02_Second_Day.m4a"; "notes.txt"] Examples.dec25 in
  exists podcast items,
    Rev1.feed_xml env (Examples.request "") = Feed podcast items /\
    List.length items = 1%nat /\
    Forall (fun it => exists ext mime,
                        In (ext, mime) SUPPORTED_FORMATS /\
                        enclosure_type it = Some mime) items.
Proof.
  cbv zeta. eexists. eexists. split; [ reflexivity | ].
  split; [ reflexivity | ].
  eapply (feed_items_have_type
            (Examples.localServer
               ["2024-12-02_Second_Day.m4a"; "notes.txt"] Examples.dec25)
            (Examples.request "")).
  left. reflexivity.
Defined.

(** The feed and [/audio] fit together: when every file that can be sized
    can be opened, each item of the feed of local files is the item of an
    episode whose file [/audio] streams, under the token of the feed, with
    the content type the item announces. *)
Theorem feed_items_are_served (env : Env) (req : Request) (podcast : JsValue)
  (items : list FeedItem) :
  (forall file st, stat (fs env) file = Return st -> access (fs env) file = true) ->
  Rev1.feed_xml env req = Feed podcast items ->
  Forall (fun it =>
            exists e,
              itemOf env req false e it /\
              forall req',
                token req' = Some (SECRET_TOKEN env) ->
                basename req' = filename e ->
                Rev1.audio env req' = Stream (enclosure_type it) (filename e))
         items.
Proof.
  intros Hfs H. apply Forall_forall. intros it Hit.
  unfold Rev1.feed_xml in H.
  apply checkSecret_pass in H; [ | simpl; lia ]. destruct H as [H _].
  apply orServerError_inv in H; [ | simpl; lia ].
  apply bind_Return_inv in H. destruct H as [files [_ H]].
  apply bind_Return_inv in H. destruct H as [eps [Heps H]].
  apply bind_Return_inv in H. destruct H as [items' [Hc H]].
  inversion H; subst.
  destruct (collectM_In _ _ _ Hc _ Hit) as [e [Hin He]].
  destruct (listEpisodes_In _ _ _ _ _ Heps e Hin) as [_ [Hkeep Hres]].
  pose proof (Rev1_addItem_Some _ _ _ _ He) as [Hrel Hitem].
  exists e. split; [ assumption | ].
  intros req' Htok Hbase.
  unfold Rev1.addItem in He. rewrite Hrel in He.
  apply bind_Return_inv in He. destruct He as [st [Hst He]].
  inversion He; subst it. cbn [enclosure_type feedItem].
  unfold Rev1.audio. rewrite (checkSecret_ok _ _ _ Htok), Hbase.
  rewrite (Hfs _ _ Hst). cbn [negb].
  unfold isSupported in Hkeep. rewrite Hkeep. cbn [negb].
  rewrite Hres. cbn [bind]. rewrite Hrel. reflexivity.
Qed.

Lemma feed_items_are_served_witness :
  let env := Examples.localServer ["2024-12-01_First_Day.mp3"] Examples.dec25 in
  exists podcast items,
    Rev1.feed_xml env (Examples.request "") = Feed podcast items /\
    List.length items = 1%nat /\
    Forall (fun it =>
              exists e,
                itemOf env (Examples.request "") false e it /\
                forall req',
                  token req' = Some (SECRET_TOKEN env) ->
                  basename req' = filename e ->
                  Rev1.audio env req' = Stream (enclosure_type it) (filename e))
           items.
Proof.
  cbv zeta. eexists. eexists. split; [ reflexivity | ].
  split; [ reflexivity | ].
  eapply (feed_items_are_served
            (Examples.localServer ["2024-12-01_First_Day.mp3"] Examples.dec25)
            (Examples.request "")); [ | reflexivity ].
  intros file st. simpl.
  destruct (String.eqb file "2024-12-01_First_Day.mp3");
    [ reflexivity | discriminate ].
Defined.

(** The feed only grows with time, in a time zone whose calendar advances:
    with the same directory and metadata, every item of the feed at one
    clock reading is an item of the feed at any later one. *)
Theorem feed_grows_with_time (env : Env) (req : Request) (n n' : Z)
  (podcast podcast' : JsValue) (items items' : list FeedItem) :
  calendarAdvances (tza env) ->
  n <= n' ->
  Rev1.feed_xml (atTime env n) req = Feed podcast items ->
  Rev1.feed_xml (atTime env n') req = Feed podcast' items' ->
  incl items items'.
Proof.
  intros Hzone Hle H H'. intros it Hit.
  unfold Rev1.feed_xml in H, H'.
  apply checkSecret_pass in H; [ | simpl; lia ]. destruct H as [H _].
  apply checkSecret_pass in H'; [ | simpl; lia ]. destruct H' as [H' _].
  apply orServerError_inv in H; [ | simpl; lia ].
  apply orServerError_inv in H'; [ | simpl; lia ].
  cbn [atTime fs metadataSource engine] in H, H'.
  apply bind_Return_inv in H. destruct H as [files [Hfiles H]].
  apply bind_Return_inv in H'. destruct H' as [files' [Hfiles' H']].
  rewrite Hfiles in Hfiles'. inversion Hfiles'; subst files'.
  apply bind_Return_inv in H. destruct H as [eps [Heps H]].
  apply bind_Return_inv in H'. destruct H' as [eps' [Heps' H']].
  rewrite Heps in Heps'. inversion Heps'; subst eps'.
  apply bind_Return_inv in H. destruct H as [its [Hc H]].
  apply bind_Return_inv in H'. destruct H' as [its' [Hc' H']].
  inversion H; subst. inversion H'; subst.
  destruct (collectM_In _ _ _ Hc _ Hit) as [e [Hin He]].
  apply (collectM_complete _ _ _ Hc' e it Hin).
  unfold Rev1.addItem in *.
  destruct (released (atTime env n) e) eqn:Hrel; [ | discriminate ].
  rewrite (released_later env n n' e Hzone Hle Hrel). exact He.
Qed.

(** In London, from 23:30 UTC of 26 October 2024 to 00:30 UTC of
    28 October, across the change of the clock. *)
Lemma feed_grows_with_time_witness :
  let env := Examples.localServerIn Examples.london
               ["2024-10-26_Saturday.mp3"; "2024-10-27_Sunday.mp3"]
               1729985400000 in
  exists podcast items podcast' items',
    Rev1.feed_xml (atTime env 1729985400000) (Examples.request "")
      = Feed podcast items /\
    Rev1.feed_xml (atTime env 1730075400000) (Examples.request "")
      = Feed podcast' items' /\
    List.length items = 1%nat /\ List.length items' = 2%nat /\
    incl items items'.
Proof.
  cbv zeta. do 4 eexists.
  split; [ reflexivity | ]. split; [ reflexivity | ].
  split; [ reflexivity | ]. split; [ reflexivity | ].
  eapply (feed_grows_with_time
            (Examples.localServerIn Examples.london
               ["2024-10-26_Saturday.mp3"; "2024-10-27_Sunday.mp3"]
               1729985400000)
            (Examples.request "") 1729985400000 1730075400000);
    [ exact london_advances | lia | reflexivity | reflexivity ].
Defined.

End HandlerProperties.

(** ** The order of a listing *)

Module ListingFacts.
Import Js Server Spec Vocabulary JsFacts ServerFacts HandlerFacts.

Lemma insert_Permutation {A : Type} (cmp : A -> A -> number) (x : A) (l : list A) :
  Permutation (insert cmp x l) (x :: l).
Proof.
  induction l as [| y l IH]; simpl; [ reflexivity | ].
  destruct (isNegative (cmp y x)); [ | reflexivity ].
  rewrite IH. apply perm_swap.
Qed.

Lemma sort_Permutation {A : Type} (cmp : A -> A -> number) (l : list A) :
  Permutation (sort cmp l) l.
Proof.
  unfold sort. induction l as [| x l IH]; simpl; [ reflexivity | ].
  rewrite insert_Permutation. now constructor.
Qed.

(** An element is moved only past elements that sort strictly before it,
    which are never of its class. *)
Lemma byReleaseDate_negative (y x : Episode) :
  isNegative (byReleaseDate y x) = true ->
  exists a b, sortClass x = Some a /\ sortClass y = Some b /\ a < b.
Proof.
  unfold byReleaseDate, sortClass, dateOrZero, sub, safe.
  destruct (releaseDate x) as [[a |] |], (releaseDate y) as [[b |] |];
    try (intros H; discriminate H);
    match goal with
    | |- context [Z.abs ?z <=? maxSafe] => destruct (Z.abs z <=? maxSafe)
    end;
    try (intros H; discriminate H);
    cbn [isNegative]; intros H; apply Z.ltb_lt in H;
    eexists; eexists; (split; [ reflexivity | split; [ reflexivity | lia ] ]).
Qed.

Lemma insert_class (c : option Z) (x : Episode) (l : list Episode) :
  filter (inClass c) (insert byReleaseDate x l) = filter (inClass c) (x :: l).
Proof.
  induction l as [| y l IH]; [ reflexivity | ].
  cbn [insert]. destruct (isNegative (byReleaseDate y x)) eqn:E; [ | reflexivity ].
  apply byReleaseDate_negative in E. destruct E as [a [b [Ha [Hb Hlt]]]].
  cbn [filter] in *. rewrite IH.
  destruct (inClass c x) eqn:Ex, (inClass c y) eqn:Ey; try reflexivity.
  unfold inClass in Ex, Ey. rewrite Ha in Ex. rewrite Hb in Ey.
  destruct c as [k |]; [ | discriminate ].
  apply Z.eqb_eq in Ex, Ey. lia.
Qed.

Lemma sort_class (c : option Z) (l : list Episode) :
  filter (inClass c) (sort byReleaseDate l) = filter (inClass c) l.
Proof.
  unfold sort. induction l as [| x l IH]; [ reflexivity | ].
  cbn [fold_right]. rewrite insert_class. cbn [filter]. now rewrite IH.
Qed.

(** *** The range of release dates *)

Lemma isDigit_value (c : ascii) :
  isDigit c = true -> 0 <= Z.of_N (N_of_ascii c) - 48 <= 9.
Proof.
  unfold isDigit. cbv zeta. intros H.
  apply andb_prop in H. destruct H as [H1 H2].
  apply N.leb_le in H1, H2. lia.
Qed.

Lemma date_fields_range (m : string) :
  conforms dateRe m = true ->
  0 <= yearOf m <= 9999 /\ 0 <= monthOf m <= 99 /\ 0 <= dayOf m <= 99.
Proof.
  destruct m as [| c0 [| c1 [| c2 [| c3 [| c4 [| c5 [| c6 [| c7 [| c8 [| c9
                 [| c10 r]]]]]]]]]]]; try discriminate;
    cbn [conforms dateRe clsMatches]; intros H;
    repeat (apply andb_prop in H; destruct H as [? H]);
    try discriminate.
  repeat match goal with
         | Hd : isDigit _ = true |- _ => apply isDigit_value in Hd
         end.
  unfold yearOf, monthOf, dayOf.
  cbn [substring digitsValue]. lia.
Qed.

Lemma DayFromYear_range (y : Z) :
  0 <= y <= 9999 -> -719528 <= DayFromYear y <= 2932532.
Proof.
  intros H. unfold DayFromYear. Z.to_euclidean_division_equations. lia.
Qed.

Lemma daysBeforeMonth_range (y m : Z) :
  1 <= m <= 12 -> 0 <= daysBeforeMonth y m <= 335.
Proof.
  intros H. unfold daysBeforeMonth.
  assert (m = 1 \/ m = 2 \/ m = 3 \/ m = 4 \/ m = 5 \/ m = 6 \/ m = 7 \/
          m = 8 \/ m = 9 \/ m = 10 \/ m = 11 \/ m = 12) as Hm by lia.
  destruct (isLeapYear y);
    repeat (destruct Hm as [Hm | Hm]; [ subst m; simpl; lia | ]);
    subst m; simpl; lia.
Qed.

(** A release date read off a file name lies between the years 0 and
    10000. *)
Lemma parseReleaseDate_range (filename : string) (t : Z) :
  parseReleaseDate filename = Some (TimeValue t) ->
  -62167219200000 <= t <= 253402300800000.
Proof.
  unfold parseReleaseDate, dateMatch.
  destruct (matchPrefix dateRe filename) as [[m rest] |] eqn:E; [ | discriminate ].
  apply matchPrefix_Some in E. destruct E as [_ Hc].
  intros H. inversion H as [Hd]. clear H.
  unfold newDate in Hd. rewrite (matchPrefix_matched _ _ Hc) in Hd.
  fold (yearOf m) in Hd. fold (monthOf m) in Hd. fold (dayOf m) in Hd.
  destruct ((1 <=? monthOf m) && (monthOf m <=? 12) &&
            (1 <=? dayOf m) && (dayOf m <=? 31)) eqn:Er; [ | discriminate ].
  apply andb_prop in Er. destruct Er as [Er E4].
  apply andb_prop in Er. destruct Er as [Er E3].
  apply andb_prop in Er. destruct Er as [E1 E2].
  apply Z.leb_le in E1, E2, E3, E4.
  destruct (date_fields_range _ Hc) as [Hy _].
  pose proof (DayFromYear_range _ Hy).
  pose proof (daysBeforeMonth_range (yearOf m) (monthOf m) ltac:(lia)).
  inversion Hd. unfold MakeDay, msPerDay. lia.
Qed.

Lemma insert_sorted (x : Episode) (l : list Episode) :
  (forall e, In e (x :: l) ->
     wellDated e /\ Z.abs (releaseKey e) <= 253402300800000) ->
  StronglySorted (fun a b => releaseKey b <= releaseKey a) l ->
  StronglySorted (fun a b => releaseKey b <= releaseKey a)
                 (insert byReleaseDate x l).
Proof.
  intros Hb Hs. induction Hs as [| y l Hs IH Hy].
  - simpl. repeat constructor.
  - cbn [insert].
    assert (isNegative (byReleaseDate y x) = (releaseKey x <? releaseKey y)) as Hn.
    { destruct (Hb x (or_introl eq_refl)) as [Hwx Hbx].
      destruct (Hb y (or_intror (or_introl eq_refl))) as [Hwy Hby].
      unfold wellDated in Hwx, Hwy.
      unfold byReleaseDate, releaseKey, dateOrZero, sub, safe in *.
      assert (maxSafe = 9007199254740991) as Hmax by reflexivity.
      destruct (releaseDate x) as [[a |] |], (releaseDate y) as [[b |] |];
        try congruence;
        match goal with
        | |- context [Z.abs ?z <=? maxSafe] =>
            destruct (Z.abs z <=? maxSafe) eqn:E;
            [ simpl; apply eq_true_iff_eq; rewrite !Z.ltb_lt; lia
            | apply Z.leb_gt in E; lia ]
        end. }
    rewrite Hn. destruct (releaseKey x <? releaseKey y) eqn:E.
    + apply Z.ltb_lt in E. constructor.
      * apply IH. intros e He. apply Hb. destruct He as [-> | He];
          [ now left | right; now right ].
      * apply Forall_forall. intros e He.
        apply (Permutation_in _ (insert_Permutation byReleaseDate x l)) in He.
        destruct He as [<- | He]; [ lia | ].
        rewrite Forall_forall in Hy. now apply Hy.
    + apply Z.ltb_ge in E. constructor.
      * now constructor.
      * constructor; [ assumption | ].
        rewrite Forall_forall in Hy. apply Forall_forall. intros e He.
        specialize (Hy e He). lia.
Qed.

Lemma sort_sorted (l : list Episode) :
  (forall e, In e l ->
     wellDated e /\ Z.abs (releaseKey e) <= 253402300800000) ->
  StronglySorted (fun a b => releaseKey b <= releaseKey a)
                 (sort byReleaseDate l).
Proof.
  unfold sort. induction l as [| x l IH]; intros Hb; simpl.
  - constructor.
  - apply insert_sorted.
    + intros e He. apply Hb. destruct He as [-> | He]; [ now left | ].
      right. now apply (sort_In byReleaseDate e l).
    + apply IH. intros e He. apply Hb. now right.
Qed.

(** On episodes with valid dates of four-digit years, or none, the
    comparator of the listings is consistent. *)
Lemma byReleaseDate_consistent (l : list Episode) :
  (forall e, In e l ->
     wellDated e /\ Z.abs (releaseKey e) <= 253402300800000) ->
  consistent byReleaseDate l.
Proof.
  intros Hb. exists (fun e => - releaseKey e). intros a b Ha Hb'.
  destruct (Hb a Ha) as [Hwa Hka]. destruct (Hb b Hb') as [Hwb Hkb].
  exists (releaseKey b - releaseKey a). split; [ | f_equal; lia ].
  unfold wellDated in Hwa, Hwb.
  unfold byReleaseDate, releaseKey, dateOrZero, sub in *.
  assert (maxSafe = 9007199254740991) as Hmax by reflexivity.
  destruct (releaseDate a) as [[x |] |], (releaseDate b) as [[y |] |];
    try congruence; apply safe_Int; lia.
Qed.

(** The key of a resolved episode is in the range of four-digit years. *)
Lemma resolved_key_range (file : string) (metadata : JsValue) (e : Episode) :
  getEpisodeDetails file metadata = Return e ->
  Z.abs (releaseKey e) <= 253402300800000.
Proof.
  intros Hres. apply getEpisodeDetails_filename in Hres.
  destruct Hres as [_ Hd]. unfold releaseKey. rewrite Hd.
  destruct (parseReleaseDate file) as [[t |] |] eqn:E;
    [ | simpl; lia | simpl; lia ].
  apply parseReleaseDate_range in E. lia.
Qed.

(** A listing without invalid dates is the stable sort of the resolved
    files, whatever the engine. *)
Lemma listEpisodes_wellDated (js : Engine) (keep : string -> bool)
  (metadata : JsValue) (files : list string) (eps : list Episode) :
  listEpisodes js keep metadata files = Return eps ->
  Forall wellDated eps ->
  exists eps0,
    mapM (fun file => getEpisodeDetails file metadata) (filter keep files)
      = Return eps0 /\
    (forall e, In e eps0 ->
       wellDated e /\ Z.abs (releaseKey e) <= 253402300800000) /\
    eps = sort byReleaseDate eps0.
Proof.
  unfold listEpisodes. intros H Hw.
  apply bind_Return_inv in H. destruct H as [eps0 [Hm H]].
  inversion H; subst. clear H. exists eps0.
  assert (forall e, In e eps0 ->
            wellDated e /\ Z.abs (releaseKey e) <= 253402300800000) as Hb.
  { intros e He. split.
    - rewrite Forall_forall in Hw. apply Hw. now apply arraySort_In.
    - destruct (mapM_In _ _ _ Hm _ He) as [file [_ Hres]].
      eapply resolved_key_range. eassumption. }
  split; [ assumption | split; [ assumption | ] ].
  apply arraySort_consistent. now apply byReleaseDate_consistent.
Qed.

End ListingFacts.

Module ListingProperties.
Import Js Server Spec Vocabulary JsFacts ServerFacts HandlerFacts ListingFacts.

(** A listing is a rearrangement of the resolved files: it holds one
    episode for each file that passes the filter. When no episode has an
    invalid date the rearrangement is stable: the episodes that tie in the
    sort (same release date, an undated episode counting as 1 January 1970)
    stay in the order of the directory. *)
Theorem listing_is_stable_rearrangement (js : Engine) (keep : string -> bool)
  (metadata : JsValue) (files : list string) (eps : list Episode) :
  listEpisodes js keep metadata files = Return eps ->
  exists resolvedInOrder,
    map filename resolvedInOrder = filter keep files /\
    Permutation resolvedInOrder eps /\
    (Forall wellDated eps ->
     forall c, filter (inClass c) eps = filter (inClass c) resolvedInOrder).
Proof.
  intros H. pose proof (listEpisodes_wellDated _ _ _ _ _ H) as Hsorted.
  unfold listEpisodes in H.
  apply bind_Return_inv in H. destruct H as [eps0 [Hm H]].
  inversion H; subst. exists eps0. split; [ | split ].
  - apply (mapM_map _ filename _ _) in Hm; [ assumption | ].
    intros a b Hab. now apply getEpisodeDetails_filename in Hab.
  - apply arraySort_rearranges.
  - intros Hw c. destruct (Hsorted Hw) as [eps1 [Hm1 [_ ->]]].
    rewrite Hm in Hm1. inversion Hm1; subst eps1. apply sort_class.
Qed.

Lemma listing_is_stable_rearrangement_witness :
  exists eps resolvedInOrder,
    listEpisodes insertionSort isSupported emptyMetadata
      ["a.mp3"; "2024-12-01_x.mp3"; "b.mp3"; "notes.txt"; "2024-12-24_y.mp3"]
      = Return eps /\
    map filename eps = ["2024-12-24_y.mp3"; "2024-12-01_x.mp3"; "a.mp3"; "b.mp3"] /\
    map filename resolvedInOrder
      = ["a.mp3"; "2024-12-01_x.mp3"; "b.mp3"; "2024-12-24_y.mp3"] /\
    Permutation resolvedInOrder eps /\
    filter (inClass (Some 0)) eps = filter (inClass (Some 0)) resolvedInOrder.
Proof.
  eexists.
  edestruct (listing_is_stable_rearrangement insertionSort isSupported
               emptyMetadata
               ["a.mp3"; "2024-12-01_x.mp3"; "b.mp3"; "notes.txt"; "2024-12-24_y.mp3"])
    as [r [H1 [H2 H3]]].
  - reflexivity.
  - exists r. split; [ reflexivity | ]. split; [ reflexivity | ].
    split; [ exact H1 | ]. split; [ exact H2 | ].
    apply (H3 ltac:(repeat constructor; discriminate) (Some 0)).
Defined.

(** A listing in which no episode has an invalid date is in descending
    order of release date, an episode without a date counting as one of
    1 January 1970. *)
Theorem listing_sorted_by_date (js : Engine) (keep : string -> bool)
  (metadata : JsValue) (files : list string) (eps : list Episode) :
  listEpisodes js keep metadata files = Return eps ->
  Forall wellDated eps ->
  StronglySorted (fun a b => releaseKey b <= releaseKey a) eps.
Proof.
  intros H Hw.
  destruct (listEpisodes_wellDated _ _ _ _ _ H Hw) as [eps0 [_ [Hb ->]]].
  now apply sort_sorted.
Qed.

Lemma listing_sorted_by_date_witness :
  exists eps,
    listEpisodes insertionSort isSupported emptyMetadata
      ["bonus_track.mp3"; "2024-12-01_x.mp3"; "1960-05-05_old.mp3";
       "2024-12-24_y.mp3"] = Return eps /\
    map filename eps
      = ["2024-12-24_y.mp3"; "2024-12-01_x.mp3"; "bonus_track.mp3";
         "1960-05-05_old.mp3"] /\
    StronglySorted (fun a b => releaseKey b <= releaseKey a) eps.
Proof.
  eexists. split; [ reflexivity | ]. split; [ reflexivity | ].
  eapply (listing_sorted_by_date insertionSort isSupported emptyMetadata
            ["bonus_track.mp3"; "2024-12-01_x.mp3"; "1960-05-05_old.mp3";
             "2024-12-24_y.mp3"]); [ reflexivity | ].
  repeat constructor; discriminate.
Defined.

End ListingProperties.

(** ** File names *)

Module FilenameFacts.
Import Js Server Spec Vocabulary JsFacts ServerFacts HandlerFacts.

(** The last segment holds no separator, and the text is the segment alone
    or ends in a separator followed by it. *)
Lemma pop_split_shape (c : ascii) (s : string) :
  occurrences c (pop (split c s)) = 0%nat /\
  (s = pop (split c s) \/
   exists p, s = (p ++ String c (pop (split c s)))%string).
Proof.
  unfold pop. induction s as [| a s IH]; simpl.
  - split; [ reflexivity | now left ].
  - destruct (Ascii.eqb a c) eqn:E.
    + apply Ascii.eqb_eq in E. subst a.
      rewrite last_cons_not_nil by apply split_not_nil.
      destruct IH as [H0 [H | [p H]]]; split; try assumption; right.
      * exists EmptyString. simpl. now rewrite <- H.
      * exists (String c p). simpl. now rewrite <- H.
    + destruct (split c s) as [| h t] eqn:Es.
      * now apply split_not_nil in Es.
      * assert (t = [] \/ t <> []) as [Ht | Ht]
          by (destruct t; [ now left | right; discriminate ]).
        -- subst t. cbn [last] in *. destruct IH as [H0 _].
           assert (occurrences c s = 0%nat) as Hs.
           { pose proof (split_length c s) as Hl. rewrite Es in Hl.
             simpl in Hl. lia. }
           rewrite (split_no_sep _ _ Hs) in Es. inversion Es; subst h.
           split; [ simpl; now rewrite E, Hs | now left ].
        -- rewrite (last_cons_not_nil _ t _ Ht).
           rewrite (last_cons_not_nil _ t _ Ht) in IH.
           destruct IH as [H0 [H | [p H]]]; split; try assumption.
           ++ exfalso. rewrite H in Es.
              rewrite split_no_sep in Es by assumption.
              inversion Es. congruence.
           ++ right. exists (String a p). simpl. now rewrite <- H.
Qed.

Lemma occurrences_mapChars_replace (c d : ascii) (s : string) :
  d <> c -> occurrences c (replaceAllChar c d s) = 0%nat.
Proof.
  intros Hd. unfold replaceAllChar.
  induction s as [| a s IH]; simpl; [ reflexivity | ].
  rewrite IH. destruct (Ascii.eqb a c) eqn:E.
  - apply Ascii.eqb_neq in Hd. now rewrite Hd.
  - now rewrite E.
Qed.

(** What follows a date token that is followed by an underscore starts
    with the underscore. *)
Lemma conforms_then_underscore (p : list cls) (m m' rest rest' : string) :
  conforms p m = true ->
  conforms (p ++ [Lit "_"]) m' = true ->
  (m ++ rest)%string = (m' ++ rest')%string ->
  rest = String "_" rest'.
Proof.
  revert m m'. induction p as [| k p IH]; intros m m' Hm Hm' Heq.
  - destruct m as [| c m]; [ | discriminate ].
    destruct m' as [| c' [| c'' m']]; try discriminate.
    + simpl in Hm'. apply andb_prop in Hm'. destruct Hm' as [Hc _].
      apply Ascii.eqb_eq in Hc. subst c'. exact Heq.
    + simpl in Hm'. apply andb_prop in Hm'. destruct Hm' as [_ Hc].
      discriminate.
  - destruct m as [| c m]; [ discriminate | ].
    destruct m' as [| c' m']; [ discriminate | ].
    simpl in Hm, Hm', Heq.
    apply andb_prop in Hm. destruct Hm as [_ Hm].
    apply andb_prop in Hm'. destruct Hm' as [_ Hm'].
    inversion Heq. eapply IH; eassumption.
Qed.

End FilenameFacts.

Module FilenameProperties.
Import Js Server Spec Vocabulary JsFacts ServerFacts HandlerFacts FilenameFacts.

(** A file passes the filter of the feed exactly when its name, in lower
    case, ends in a dot and a supported extension or is a supported
    extension itself: a file named [mp3] or [OGG], without any dot, passes
    too. *)
Theorem isSupported_iff (file : string) :
  isSupported file = true <->
  exists ext,
    In ext extensions /\
    (toLowerCase file = ext \/
     exists p, toLowerCase file = (p ++ "." ++ ext)%string).
Proof.
  unfold isSupported, extensionOf. split.
  - intros H. apply hasOwnProperty_lookup in H. destruct H as [mime Hmime].
    apply lookup_In in Hmime.
    exists (pop (split "." (toLowerCase file))). split.
    + unfold extensions. now apply (in_map fst) in Hmime.
    + destruct (pop_split_shape "." (toLowerCase file)) as [_ [H | [p H]]].
      * left. now symmetry.
      * right. exists p. exact H.
  - intros [ext [Hext Hshape]].
    assert (occurrences "." ext = 0%nat /\
            hasOwnProperty SUPPORTED_FORMATS ext = true) as [Hdot Hown].
    { unfold extensions in Hext. simpl in Hext.
      repeat (destruct Hext as [<- | Hext]; [ split; reflexivity | ]).
      contradiction. }
    destruct Hshape as [-> | [p ->]].
    + rewrite split_no_sep by assumption. exact Hown.
    + simpl append. rewrite pop_split_app_sep by assumption. exact Hown.
Qed.

(** The date is read off the start of the name even when no underscore
    follows it, but only a date followed by an underscore is taken out of
    the title: [2024-12-01.mp3] is released on that day under the title
    [2024-12-01]. *)
Theorem date_without_underscore_stays_in_title (m rest : string) :
  conforms dateRe m = true ->
  (forall r, rest <> String "_" r) ->
  parseReleaseDate (m ++ rest) = Some (newDate m) /\
  defaultTitle (m ++ rest) = replaceAllChar "_" " " (stripMp3 (m ++ rest)).
Proof.
  intros Hc Hrest. split; [ now apply parseReleaseDate_prefix | ].
  unfold defaultTitle, stripDatePrefix.
  destruct (matchPrefix (dateRe ++ [Lit "_"]) (m ++ rest)) as [[m' rest'] |] eqn:E;
    [ | reflexivity ].
  exfalso. apply matchPrefix_Some in E. destruct E as [Heq Hc'].
  apply (Hrest rest').
  exact (conforms_then_underscore dateRe m m' rest rest' Hc Hc' Heq).
Qed.

Lemma date_without_underscore_stays_in_title_witness :
  parseReleaseDate "2024-12-01.mp3" = Some (TimeValue (midnightUTC 2024 12 1)) /\
  defaultTitle "2024-12-01.mp3" = "2024-12-01".
Proof.
  destruct (date_without_underscore_stays_in_title "2024-12-01" ".mp3" eq_refl)
    as [H1 H2].
  - discriminate.
  - split; [ exact H1 | exact H2 ].
Defined.

(** The default title of a dated [.mp3] holds nothing of the date nor of
    the extension, and no underscore: it is the middle of the name with a
    space for every underscore. *)
Theorem default_title_of_dated_mp3 (m rest : string) :
  conforms dateRe m = true ->
  defaultTitle (m ++ "_" ++ rest ++ ".mp3") = replaceAllChar "_" " " rest /\
  occurrences "_" (defaultTitle (m ++ "_" ++ rest ++ ".mp3")) = 0%nat /\
  String.length (defaultTitle (m ++ "_" ++ rest ++ ".mp3")) = String.length rest.
Proof.
  intros Hc.
  assert (defaultTitle (m ++ "_" ++ rest ++ ".mp3")
          = replaceAllChar "_" " " rest) as ->.
  { unfold defaultTitle, stripDatePrefix, stripMp3.
    replace (m ++ "_" ++ rest ++ ".mp3")%string
      with ((m ++ "_") ++ (rest ++ ".mp3"))%string
      by (rewrite append_assoc; reflexivity).
    rewrite (matchPrefix_conforms (dateRe ++ [Lit "_"]) (m ++ "_"))
      by (apply conforms_app; [ assumption | reflexivity ]).
    now rewrite (proj2 (stripSuffix_Some ".mp3" (rest ++ ".mp3") rest) eq_refl). }
  split; [ reflexivity | split ].
  - apply occurrences_mapChars_replace. discriminate.
  - unfold replaceAllChar. induction rest as [| c r IH]; simpl;
      [ reflexivity | now rewrite IH ].
Qed.

Lemma default_title_of_dated_mp3_witness :
  defaultTitle "2024-12-01_First_Day.mp3.bak_v2.mp3" = "First Day.mp3.bak v2".
Proof.
  exact (proj1 (default_title_of_dated_mp3 "2024-12-01" "First_Day.mp3.bak_v2"
                  eq_refl)).
Defined.

End FilenameProperties.

(** ** Resolution without metadata, and the order of release dates *)

Module ResolutionFacts.
Import Js Server Spec Vocabulary JsFacts ServerFacts HandlerFacts ListingFacts.

Lemma mapM_total {A B : Type} (f : A -> result B) (g : A -> B) (l : list A) :
  (forall a, f a = Return (g a)) -> mapM f l = Return (map g l).
Proof.
  intros H. induction l as [| a l IH]; simpl; [ reflexivity | ].
  now rewrite H, IH.
Qed.

Lemma loadMetadata_noMetadata (env : Env) :
  noMetadata env -> loadMetadata (metadataSource env) = emptyMetadata.
Proof.
  unfold noMetadata, loadMetadata, orElse.
  destruct (metadataSource env) as [v |]; [ | reflexivity ].
  now intros ->.
Qed.

Lemma getEpisodeDetails_emptyMetadata (file : string) :
  getEpisodeDetails file emptyMetadata = Return (defaultsOf file).
Proof. reflexivity. Qed.

(** *** The calendar *)

Lemma DayFromYear_mono (y y' : Z) :
  y <= y' -> DayFromYear y <= DayFromYear y'.
Proof.
  intros H. unfold DayFromYear. Z.to_euclidean_division_equations. lia.
Qed.

Lemma dayOfYear_bound (y m d : Z) :
  validDay y m d ->
  1 <= daysBeforeMonth y m + d <= (if isLeapYear y then 366 else 365).
Proof.
  intros [Hm Hd].
  assert (0 <= daysBeforeMonth y m /\
          daysBeforeMonth y m + daysInMonth y m
          <= (if isLeapYear y then 366 else 365)) as [H1 H2].
  { unfold daysBeforeMonth, daysInMonth.
    assert (m = 1 \/ m = 2 \/ m = 3 \/ m = 4 \/ m = 5 \/ m = 6 \/ m = 7 \/
            m = 8 \/ m = 9 \/ m = 10 \/ m = 11 \/ m = 12) as Hcases by lia.
    clear Hd.
    destruct Hcases as [-> | [-> | [-> | [-> | [-> | [-> | [-> | [-> | [-> | [-> | [-> | ->]]]]]]]]]]];
      destruct (isLeapYear y); simpl; lia. }
  destruct (isLeapYear y); lia.
Qed.

Lemma daysBeforeMonth_next (y m m' : Z) :
  1 <= m -> m < m' -> m' <= 12 ->
  daysBeforeMonth y m + daysInMonth y m <= daysBeforeMonth y m'.
Proof.
  intros H1 H2 H3. unfold daysBeforeMonth, daysInMonth.
  assert (m = 1 \/ m = 2 \/ m = 3 \/ m = 4 \/ m = 5 \/ m = 6 \/ m = 7 \/
          m = 8 \/ m = 9 \/ m = 10 \/ m = 11) as Hm by lia.
  assert (m' = 2 \/ m' = 3 \/ m' = 4 \/ m' = 5 \/ m' = 6 \/ m' = 7 \/
          m' = 8 \/ m' = 9 \/ m' = 10 \/ m' = 11 \/ m' = 12) as Hm' by lia.
  destruct Hm as [-> | [-> | [-> | [-> | [-> | [-> | [-> | [-> | [-> | [-> | ->]]]]]]]]]];
    destruct Hm' as [-> | [-> | [-> | [-> | [-> | [-> | [-> | [-> | [-> | [-> | ->]]]]]]]]]];
    try lia; destruct (isLeapYear y); simpl; lia.
Qed.

(** An earlier day of the calendar has a smaller day number. *)
Lemma MakeDay_earlier (y m d y' m' d' : Z) :
  validDay y m d -> validDay y' m' d' ->
  earlier y m d y' m' d' ->
  MakeDay y m d < MakeDay y' m' d'.
Proof.
  intros Hv Hv' He. unfold MakeDay.
  pose proof (dayOfYear_bound _ _ _ Hv) as Hb.
  pose proof (dayOfYear_bound _ _ _ Hv') as Hb'.
  destruct He as [Hy | [-> [Hm | [-> Hd]]]].
  - pose proof (DayFromYear_succ y) as Hs.
    pose proof (DayFromYear_mono (y + 1) y' ltac:(lia)) as Hmono.
    destruct (isLeapYear y); lia.
  - destruct Hv as [Hm1 Hd1]. destruct Hv' as [Hm2 Hd2].
    pose proof (daysBeforeMonth_next y' m m' ltac:(lia) Hm ltac:(lia)). lia.
  - lia.
Qed.

End ResolutionFacts.

Module ResolutionProperties.
Import Js Server Spec Vocabulary JsFacts ServerFacts HandlerFacts ListingFacts
       ResolutionFacts.

(** Without a metadata file (missing, unreadable or empty) the feed is
    still served: when the directory can be listed and its files sized, the
    feed has the empty channel metadata and one item for each supported,
    released file, resolved to the defaults of its name, in the order the
    engine's sort gives the listing. *)
Theorem feed_without_metadata (env : Env) (req : Request) (files : list string) :
  token req = Some (SECRET_TOKEN env) ->
  noMetadata env ->
  readdir (fs env) = Return files ->
  (forall file, In file files -> exists st, stat (fs env) file = Return st) ->
  exists items,
    Rev1.feed_xml env req = Feed (JObj []) items /\
    Forall2 (itemOf env req false)
            (filter (released env)
               (arraySort (engine env) byReleaseDate
                  (map defaultsOf (filter isSupported files))))
            items.
Proof.
  intros Htok Hmeta Hdir Hstat.
  unfold Rev1.feed_xml. rewrite (checkSecret_ok _ _ _ Htok).
  rewrite (loadMetadata_noMetadata _ Hmeta), Hdir. cbn [bind].
  unfold listEpisodes.
  rewrite (mapM_total _ defaultsOf) by apply getEpisodeDetails_emptyMetadata.
  cbn [bind].
  destruct (collectM_filter (Rev1.addItem env req) (released env)
              (itemOf env req false)
              (arraySort (engine env) byReleaseDate
                 (map defaultsOf (filter isSupported files))))
    as [items [Hitems HR]].
  - intros e He. apply arraySort_In in He. apply in_map_iff in He.
    destruct He as [file [<- Hfile]]. apply filter_In in Hfile.
    destruct Hfile as [Hfile _]. destruct (Hstat _ Hfile) as [st Hst].
    unfold Rev1.addItem. destruct (released env (defaultsOf file)); [ | reflexivity ].
    cbn [filename defaultsOf]. rewrite Hst. cbn [bind].
    eexists. split; [ reflexivity | ].
    apply (itemOf_feedItem env req false (defaultsOf file)).
  - exists items. rewrite Hitems. cbn [bind orServerError].
    split; [ reflexivity | assumption ].
Qed.

Lemma feed_without_metadata_witness :
  let env := Examples.localServer
               ["2024-12-01_First_Day.mp3"; "2099-01-01_Future.mp3"; "cover.jpg"]
               Examples.dec25 in
  exists items,
    Rev1.feed_xml env (Examples.request "") = Feed (JObj []) items /\
    map item_title items = [JStr "First Day"].
Proof.
  cbv zeta.
  edestruct (feed_without_metadata
               (Examples.localServer
                  ["2024-12-01_First_Day.mp3"; "2099-01-01_Future.mp3"; "cover.jpg"]
                  Examples.dec25)
               (Examples.request "")) as [items [Hfeed _]].
  - reflexivity.
  - exact I.
  - reflexivity.
  - intros file Hfile. simpl.
    destruct Hfile as [<- | [<- | [<- | []]]]; eexists; reflexivity.
  - exists items. split; [ exact Hfeed | ].
    assert (Feed (JObj []) items
            = Rev1.feed_xml
                (Examples.localServer
                   ["2024-12-01_First_Day.mp3"; "2099-01-01_Future.mp3"; "cover.jpg"]
                   Examples.dec25) (Examples.request "")) as H
      by (symmetry; exact Hfeed).
    vm_compute in H. inversion H. reflexivity.
Defined.

(** Release dates follow the calendar: of two date tokens that denote days
    of the calendar, the one that is earlier as a date (year, month, day)
    gives the earlier release date, by a day at least. *)
Theorem release_dates_follow_calendar (m m' : string) :
  conforms dateRe m = true -> conforms dateRe m' = true ->
  validCalendarDate m = true -> validCalendarDate m' = true ->
  earlier (yearOf m) (monthOf m) (dayOf m) (yearOf m') (monthOf m') (dayOf m') ->
  exists t t',
    newDate m = TimeValue t /\ newDate m' = TimeValue t' /\
    t + msPerDay <= t'.
Proof.
  intros Hc Hc' Hv Hv' He.
  rewrite (newDate_valid _ Hc Hv), (newDate_valid _ Hc' Hv').
  eexists. eexists. split; [ reflexivity | split; [ reflexivity | ] ].
  assert (forall x, validCalendarDate x = true ->
                    validDay (yearOf x) (monthOf x) (dayOf x)) as Hvalid.
  { intros x Hx. unfold validCalendarDate in Hx.
    apply andb_prop in Hx. destruct Hx as [Hx H4].
    apply andb_prop in Hx. destruct Hx as [Hx H3].
    apply andb_prop in Hx. destruct Hx as [H1 H2].
    apply Z.leb_le in H1, H2, H3, H4. unfold validDay. lia. }
  pose proof (MakeDay_earlier _ _ _ _ _ _ (Hvalid _ Hv) (Hvalid _ Hv') He).
  unfold midnightUTC, msPerDay. lia.
Qed.

Lemma release_dates_follow_calendar_witness :
  exists t t',
    newDate "2024-02-29" = TimeValue t /\ newDate "2024-03-01" = TimeValue t' /\
    t + msPerDay <= t'.
Proof.
  apply (release_dates_follow_calendar "2024-02-29" "2024-03-01");
    try reflexivity.
  right. split; [ reflexivity | ]. left. reflexivity.
Defined.

End ResolutionProperties.

(** ** The asset manifest and the file-type table *)

Module ManifestFacts.
Import Js Server Spec Vocabulary JsFacts ServerFacts HandlerFacts.
Import Manifest.

Lemma has_setAdd (m n : string) (names : list string) :
  has (setAdd m names) n = has names n || String.eqb n m.
Proof.
  unfold setAdd, has. destruct (existsb (String.eqb m) names) eqn:E.
  - destruct (String.eqb n m) eqn:Enm; [ | now rewrite orb_false_r ].
    apply String.eqb_eq in Enm. subst n. now rewrite E.
  - rewrite existsb_app. simpl. now rewrite orb_false_r.
Qed.

Lemma mapSet_keys {A : Type} (k x : string) (v : A) (m : list (string * A)) :
  In x (map fst (mapSet k v m)) <-> x = k \/ In x (map fst m).
Proof.
  induction m as [| [k' v'] m IH]; simpl.
  - intuition congruence.
  - destruct (String.eqb k' k) eqn:E; simpl.
    + apply String.eqb_eq in E. subst k'. intuition congruence.
    + rewrite IH. intuition congruence.
Qed.

Lemma mapSet_NoDup {A : Type} (k : string) (v : A) (m : list (string * A)) :
  NoDup (map fst m) -> NoDup (map fst (mapSet k v m)).
Proof.
  induction m as [| [k' v'] m IH]; simpl; intros H.
  - repeat constructor. auto.
  - inversion H as [| ? ? Hnotin Hnd]; subst.
    destruct (String.eqb k' k) eqn:E; simpl.
    + apply String.eqb_eq in E. subst k'. now constructor.
    + constructor; [ | auto ].
      rewrite mapSet_keys. intros [-> | Hin]; [ | contradiction ].
      rewrite String.eqb_refl in E. discriminate.
Qed.

Lemma mapSet_Forall {A : Type} (P : string * A -> Prop) (k : string) (v : A)
  (m : list (string * A)) :
  P (k, v) -> Forall P m -> Forall P (mapSet k v m).
Proof.
  intros Hk. induction 1 as [| [k' v'] m Hx Hm IH]; simpl.
  - now repeat constructor.
  - destruct (String.eqb k' k); now constructor.
Qed.

Lemma lookup_mapSet {A : Type} (k n : string) (v : A) (m : list (string * A)) :
  lookup n (mapSet k v m) = if String.eqb k n then Some v else lookup n m.
Proof.
  induction m as [| [k' v'] m IH]; simpl.
  - reflexivity.
  - destruct (String.eqb k' k) eqn:E; simpl.
    + apply String.eqb_eq in E. subst k'.
      destruct (String.eqb k n); reflexivity.
    + rewrite IH. destruct (String.eqb k' n) eqn:E'; [ | reflexivity ].
      apply String.eqb_eq in E'. subst k'.
      rewrite String.eqb_sym in E. now rewrite E.
Qed.

Lemma lookup_None_keys {A : Type} (n : string) (m : list (string * A)) :
  ~ In n (map fst m) -> lookup n m = None.
Proof.
  intros H. destruct (lookup n m) as [v |] eqn:E; [ | reflexivity ].
  exfalso. apply H. apply lookup_In in E. now apply (in_map fst) in E.
Qed.

(** What the second pass keeps true of the assets collected so far. *)
Lemma collect_invariant (d : list string) (acc : list (string * Asset))
  (line : Parsed) :
  NoDup (map fst acc) /\
  Forall (fun a => truthy (asset_url (snd a)) = true /\
                   fst a <> EmptyString /\ has d (fst a) = false) acc ->
  NoDup (map fst (collect d acc line)) /\
  Forall (fun a => truthy (asset_url (snd a)) = true /\
                   fst a <> EmptyString /\ has d (fst a) = false)
         (collect d acc line).
Proof.
  intros [Hnd Hall]. unfold collect.
  destruct line as [| | asset]; try (split; assumption).
  destruct (isLive asset) eqn:Hlive; [ | split; assumption ].
  destruct (name asset) as [n |] eqn:Hn; [ | split; assumption ].
  destruct (has d n) eqn:Hd; [ split; assumption | ].
  split; [ now apply mapSet_NoDup | ].
  apply mapSet_Forall; [ | assumption ].
  unfold isLive in Hlive. rewrite Hn in Hlive.
  apply andb_prop in Hlive. destruct Hlive as [Hlive _].
  apply andb_prop in Hlive. destruct Hlive as [Hname Hurl].
  simpl. repeat split; try assumption.
  intros ->. discriminate.
Qed.

Lemma secondPass_invariant (d : list string) (lines : list Parsed)
  (acc : list (string * Asset)) :
  NoDup (map fst acc) /\
  Forall (fun a => truthy (asset_url (snd a)) = true /\
                   fst a <> EmptyString /\ has d (fst a) = false) acc ->
  NoDup (map fst (fold_left (collect d) lines acc)) /\
  Forall (fun a => truthy (asset_url (snd a)) = true /\
                   fst a <> EmptyString /\ has d (fst a) = false)
         (fold_left (collect d) lines acc).
Proof.
  revert acc. induction lines as [| line lines IH]; intros acc H; simpl.
  - exact H.
  - apply IH. now apply collect_invariant.
Qed.

Lemma lookup_collect (d : list string) (n : string)
  (acc : list (string * Asset)) (line : Parsed) :
  has d n = false ->
  lookup n (collect d acc line)
  = match lastLive n [line] with
    | Some a => Some a
    | None => lookup n acc
    end.
Proof.
  intros Hd. unfold collect. cbn [lastLive].
  destruct line as [| | asset]; try reflexivity.
  destruct (isLive asset); [ | reflexivity ].
  destruct (name asset) as [n' |]; [ | reflexivity ].
  destruct (String.eqb n' n) eqn:E.
  - apply String.eqb_eq in E. subst n'. rewrite Hd.
    now rewrite lookup_mapSet, String.eqb_refl.
  - destruct (has d n'); [ reflexivity | ].
    now rewrite lookup_mapSet, E.
Qed.

Lemma lookup_secondPass (d : list string) (n : string) (lines : list Parsed)
  (acc : list (string * Asset)) :
  has d n = false ->
  lookup n (fold_left (collect d) lines acc)
  = match lastLive n lines with
    | Some a => Some a
    | None => lookup n acc
    end.
Proof.
  intros Hd. revert acc.
  induction lines as [| line lines IH]; intros acc; [ reflexivity | ].
  cbn [fold_left]. rewrite IH. cbn [lastLive].
  destruct (lastLive n lines) as [a |]; [ reflexivity | ].
  rewrite (lookup_collect d n acc line Hd). reflexivity.
Qed.

(** One step of the first pass. *)
Lemma has_mark (all : list Parsed) (acc : list string) (line : Parsed)
  (n : string) :
  has (mark all acc line) n = true <->
  has acc n = true \/
  exists asset u,
    line = JsonValue asset /\ truthy (deleted asset) = true /\
    uuid asset = Some u /\ u <> EmptyString /\ originalName all u = Some n.
Proof.
  unfold mark. destruct line as [| | asset].
  - split; [ now left | ].
    intros [H | [a [u [H _]]]]; [ exact H | discriminate ].
  - split; [ now left | ].
    intros [H | [a [u [H _]]]]; [ exact H | discriminate ].
  - destruct (truthy (deleted asset)) eqn:Hdel; cbn [andb].
    + destruct (uuid asset) as [u |] eqn:Hu; cbn [present].
      * destruct (String.eqb u "") eqn:Hue; cbn [negb].
        -- apply String.eqb_eq in Hue. split; [ now left | ].
           intros [H | [a [u' [Ha [_ [Hu' [Hne _]]]]]]]; [ exact H | ].
           inversion Ha; subst a. congruence.
        -- apply String.eqb_neq in Hue.
           destruct (originalName all u) as [m |] eqn:Ho.
           ++ rewrite has_setAdd, orb_true_iff. split.
              ** intros [H | H]; [ now left | ].
                 apply String.eqb_eq in H. subst m. right.
                 exists asset, u. repeat split; assumption.
              ** intros [H | [a [u' [Ha [_ [Hu' [_ Ho']]]]]]];
                   [ now left | ].
                 inversion Ha; subst a. right.
                 rewrite Hu in Hu'. inversion Hu'; subst u'.
                 rewrite Ho in Ho'. inversion Ho'. apply String.eqb_refl.
           ++ split; [ now left | ].
              intros [H | [a [u' [Ha [_ [Hu' [_ Ho']]]]]]]; [ exact H | ].
              inversion Ha; subst a.
              rewrite Hu in Hu'. inversion Hu'; subst u'. congruence.
      * split; [ now left | ].
        intros [H | [a [u' [Ha [_ [Hu' _]]]]]]; [ exact H | ].
        inversion Ha; subst a. congruence.
    + split; [ now left | ].
      intros [H | [a [u' [Ha [Hd' _]]]]]; [ exact H | ].
      inversion Ha; subst a. congruence.
Qed.

(** The names marked so far: those marked before, and those the deletions
    met resolve to. *)
Lemma has_firstPass (all lines : list Parsed) (acc : list string) (n : string) :
  has (fold_left (mark all) lines acc) n = true <->
  has acc n = true \/
  exists asset u,
    In (JsonValue asset) lines /\ truthy (deleted asset) = true /\
    uuid asset = Some u /\ u <> EmptyString /\ originalName all u = Some n.
Proof.
  revert acc. induction lines as [| line lines IH]; intros acc.
  - simpl. split; [ now left | ].
    intros [H | [asset [u [[] _]]]]. exact H.
  - cbn [fold_left]. rewrite IH, has_mark. clear IH. split.
    + intros [[H | [asset [u [-> H]]]] | [asset [u [Hin H]]]].
      * now left.
      * right. exists asset, u. split; [ now left | exact H ].
      * right. exists asset, u. split; [ now right | exact H ].
    + intros [H | [asset [u [[Hin | Hin] H]]]].
      * left. now left.
      * left. right. exists asset, u. split; [ now symmetry | exact H ].
      * right. exists asset, u. split; assumption.
Qed.

Lemma firstPass_unparsable (all lines : list Parsed) (acc : list string) :
  existsb isUnparsable all = true ->
  fold_left (mark all) lines acc = acc.
Proof.
  intros H. revert acc. induction lines as [| line lines IH]; intros acc;
    [ reflexivity | ].
  cbn [fold_left]. rewrite IH. unfold mark, originalName. rewrite H.
  destruct line as [| | asset]; try reflexivity.
  destruct (truthy (deleted asset) && present (uuid asset)); [ | reflexivity ].
  destruct (uuid asset); reflexivity.
Qed.

(** The asset of a name in what [getGlitchAssets] returns. *)
Lemma lookup_assets (lines : list Parsed) (n : string) :
  lookup n (secondPass (firstPass lines) lines)
  = if has (firstPass lines) n then None else lastLive n lines.
Proof.
  destruct (has (firstPass lines) n) eqn:Hd.
  - apply lookup_None_keys. intros Hin.
    apply in_map_iff in Hin. destruct Hin as [a [<- Ha]].
    destruct (secondPass_invariant (firstPass lines) lines [])
      as [_ Hall]; [ split; constructor | ].
    rewrite Forall_forall in Hall. destruct (Hall a Ha) as [_ [_ Hd']].
    congruence.
  - unfold secondPass. rewrite (lookup_secondPass _ _ _ _ Hd).
    destruct (lastLive n lines); reflexivity.
Qed.

(** The asset of a live line has a URL. *)
Lemma lastLive_url (n : string) (lines : list Parsed) (a : Asset) :
  lastLive n lines = Some a -> truthy (asset_url a) = true.
Proof.
  induction lines as [| line lines IH]; cbn [lastLive]; [ discriminate | ].
  destruct (lastLive n lines) as [b |].
  - intros H. inversion H; subst. now apply IH.
  - destruct line as [| | asset]; try discriminate.
    destruct (isLive asset) eqn:Hlive; [ | discriminate ].
    destruct (name asset) as [n' |]; [ | discriminate ].
    destruct (String.eqb n' n); [ | discriminate ].
    intros H. inversion H; subst. cbn [assetOf asset_url].
    unfold isLive in Hlive. apply andb_prop in Hlive.
    destruct Hlive as [Hlive _]. apply andb_prop in Hlive. tauto.
Qed.

End ManifestFacts.

Module ManifestProperties.
Import Js Server Spec Vocabulary JsFacts ServerFacts HandlerFacts ManifestFacts.
Import Manifest.

(** Whatever the manifest holds, the assets [getGlitchAssets] returns have
    distinct, non-empty names and a URL each, and none of them bears a
    deleted name; so the handlers' own checks for deleted names and for
    missing URLs never exclude anything, and the feed and the listing of a
    hosted server can be compared. *)
Theorem manifest_assets_invariant (onGlitch : bool)
  (manifest : result (list Parsed)) :
  let g := getGlitchAssets onGlitch manifest in
  NoDup (map fst (assets g)) /\
  Forall (fun a => truthy (asset_url (snd a)) = true /\
                   fst a <> EmptyString) (assets g) /\
  (forall n, has (deletedFiles g) n = true -> lookup n (assets g) = None) /\
  filter (fun n => negb (has (deletedFiles g) n)) (map fst (assets g))
    = map fst (assets g) /\
  (forall env, comparable (hostedServer env manifest)).
Proof.
  assert (forall on m,
            let g := getGlitchAssets on m in
            NoDup (map fst (assets g)) /\
            Forall (fun a => truthy (asset_url (snd a)) = true /\
                             fst a <> EmptyString /\
                             has (deletedFiles g) (fst a) = false)
                   (assets g)) as Hg.
  { intros on m. unfold getGlitchAssets.
    destruct on; cbn [negb]; [ | split; constructor ].
    destruct m as [lines | e]; [ | split; constructor ].
    cbv zeta. cbn [assets deletedFiles].
    apply secondPass_invariant. split; constructor. }
  cbv zeta. destruct (Hg onGlitch manifest) as [Hnd Hall].
  split; [ exact Hnd | ]. split; [ | split; [ | split ] ].
  - eapply Forall_impl; [ | exact Hall ]. intros a [H1 [H2 _]]. now split.
  - intros n Hn. apply lookup_None_keys. intros Hin.
    apply in_map_iff in Hin. destruct Hin as [a [<- Ha]].
    rewrite Forall_forall in Hall. destruct (Hall a Ha) as [_ [_ Hd]].
    congruence.
  - apply filter_all. apply Forall_forall. intros n Hin.
    apply in_map_iff in Hin. destruct Hin as [a [<- Ha]].
    rewrite Forall_forall in Hall. destruct (Hall a Ha) as [_ [_ Hd]].
    now rewrite Hd.
  - intros env. unfold comparable, hostedServer. cbn [glitch].
    destruct (Hg true manifest) as [_ Hall'].
    eapply Forall_impl; [ | exact Hall' ]. now intros a [H1 _].
Qed.

(** The asset of a name is that of the last live line with the name (a
    later upload replaces an earlier one), unless the name is deleted: a
    deleted name has no asset, not even from a line uploaded after the
    deletion. *)
Theorem manifest_last_upload_wins (lines : list Parsed) (n : string) :
  let g := getGlitchAssets true (Return lines) in
  lookup n (assets g)
  = if has (deletedFiles g) n then None else lastLive n lines.
Proof.
  cbv zeta. unfold getGlitchAssets. cbn [negb assets deletedFiles].
  apply lookup_assets.
Qed.

(** A name is deleted exactly when some line is a deletion with a uuid and
    the first named line of that uuid bears the name; this requires every
    line of the manifest to parse. *)
Theorem manifest_deleted_iff (lines : list Parsed) (n : string) :
  has (deletedFiles (getGlitchAssets true (Return lines))) n = true <->
  exists asset u,
    In (JsonValue asset) lines /\ truthy (deleted asset) = true /\
    uuid asset = Some u /\ u <> EmptyString /\
    existsb isUnparsable lines = false /\
    find u lines = Return (Some n).
Proof.
  unfold getGlitchAssets. cbn [negb deletedFiles]. unfold firstPass.
  rewrite has_firstPass. split.
  - intros [H | [asset [u [Hin [Hd [Hu [Hne Ho]]]]]]]; [ discriminate | ].
    exists asset, u. repeat split; try assumption.
    + unfold originalName in Ho.
      destruct (existsb isUnparsable lines); [ discriminate | reflexivity ].
    + unfold originalName in Ho.
      destruct (existsb isUnparsable lines); [ discriminate | ].
      destruct (find u lines) as [[m |] | e]; try discriminate.
      now inversion Ho.
  - intros [asset [u [Hin [Hd [Hu [Hne [Hp Hf]]]]]]]. right.
    exists asset, u. repeat split; try assumption.
    unfold originalName. now rewrite Hp, Hf.
Qed.

(** One line that does not parse disables every deletion: no name is
    deleted, and each name has the asset of its last live line, deleted
    or not. *)
Theorem bad_line_disables_deletions (lines : list Parsed) :
  existsb isUnparsable lines = true ->
  let g := getGlitchAssets true (Return lines) in
  deletedFiles g = [] /\
  forall n, lookup n (assets g) = lastLive n lines.
Proof.
  intros H. cbv zeta. unfold getGlitchAssets. cbn [negb assets deletedFiles].
  assert (firstPass lines = []) as Hd
    by (unfold firstPass; now apply firstPass_unparsable).
  rewrite Hd. split; [ reflexivity | ].
  intros n. unfold secondPass.
  rewrite (lookup_secondPass [] n lines [] eq_refl).
  destruct (lastLive n lines); reflexivity.
Qed.

Lemma bad_line_disables_deletions_witness :
  let g := getGlitchAssets true
             (Return (HostedExamples.manifest ++ [Unparsable])%list) in
  deletedFiles (getGlitchAssets true (Return HostedExamples.manifest))
    = ["2024-12-01_Old.mp3"] /\
  deletedFiles g = [] /\
  lookup "2024-12-01_Old.mp3" (assets g)
    = lastLive "2024-12-01_Old.mp3"
        (HostedExamples.manifest ++ [Unparsable])%list.
Proof.
  cbv zeta. split; [ reflexivity | ].
  destruct (bad_line_disables_deletions
              (HostedExamples.manifest ++ [Unparsable])%list eq_refl)
    as [H1 H2].
  split; [ exact H1 | exact (H2 "2024-12-01_Old.mp3") ].
Defined.

End ManifestProperties.

(** ** The hosted listings *)

Module HostedProperties.
Import Js Server Spec Vocabulary JsFacts ServerFacts HandlerFacts ManifestFacts.

(** On the hosting platform the feed and the listing are made from the
    manifest alone: the local audio directory has no part in the
    response. *)
Theorem hosted_listings_ignore_directory (env : Env) (req : Request)
  (g : GlitchAssets) (directory : FileSystem) :
  glitch env = Some g ->
  Rev2.feed_xml (withFs env directory) req = Rev2.feed_xml env req /\
  Rev2.episodes (withFs env directory) req = Rev2.episodes env req.
Proof.
  intros Hg.
  assert (forall e, Rev2.addItem (withFs env directory) req e
                    = Rev2.addItem env req e) as Hadd.
  { intros e.
    unfold Rev2.addItem, Server.isGlitch, released, Server.getGlitchAssets.
    cbn [withFs glitch tza now]. now rewrite Hg. }
  assert (forall l, collectM (Rev2.addItem (withFs env directory) req) l
                    = collectM (Rev2.addItem env req) l) as Hc.
  { induction l as [| e l IH]; simpl; [ reflexivity | ].
    now rewrite Hadd, IH. }
  unfold Rev2.feed_xml, Rev2.episodes, Rev2.audioFiles, Server.isGlitch,
         Server.getGlitchAssets, checkSecret.
  cbn [withFs glitch metadataSource SECRET_TOKEN]. rewrite Hg.
  split; [ | reflexivity ].
  destruct (token req) as [t |]; [ | reflexivity ].
  destruct (String.eqb t (SECRET_TOKEN env)); [ | reflexivity ].
  f_equal.
  match goal with
  | |- context [listEpisodes ?k ?m ?l] => destruct (listEpisodes k m l)
  end; [ | reflexivity ].
  cbn [bind]. now rewrite Hc.
Qed.

Lemma hosted_listings_ignore_directory_witness :
  let env := HostedExamples.server Examples.dec25 in
  Rev2.episodes (withFs env (Examples.directory [])) (Examples.request "")
  = Rev2.episodes env (Examples.request "").
Proof.
  cbv zeta.
  refine (proj2 (hosted_listings_ignore_directory
                   (HostedExamples.server Examples.dec25) (Examples.request "")
                   _ (Examples.directory []) eq_refl)).
Defined.

(** [/audio] on the hosting platform, read off the manifest: a deleted name
    is answered 404, a name with a live line is redirected to the URL of
    its last live line, and any other name is served from the local
    directory as off the platform. *)
Theorem hosted_audio_from_manifest (env : Env) (req : Request)
  (lines : list Manifest.Parsed) :
  glitch env = None ->
  token req = Some (SECRET_TOKEN env) ->
  Rev2.audio (Manifest.hostedServer env (Return lines)) req
  = if has (Manifest.firstPass lines) (basename req)
    then Json 404 (errorBody "File not found")
    else match lastLive (basename req) lines with
         | Some a => Redirect (asset_url a)
         | None => Rev2.audio env req
         end.
Proof.
  intros Hlocal Htok. unfold Rev2.audio, Server.isGlitch, Server.getGlitchAssets.
  rewrite (checkSecret_ok env _ _ Htok).
  rewrite (checkSecret_ok (Manifest.hostedServer env (Return lines)) _ _ Htok).
  rewrite Hlocal.
  unfold Manifest.hostedServer, Manifest.getGlitchAssets.
  cbn [glitch negb assets deletedFiles fs metadataSource].
  rewrite lookup_assets.
  destruct (has (Manifest.firstPass lines) (basename req)); [ reflexivity | ].
  destruct (lastLive (basename req) lines) as [a |] eqn:Hlast;
    [ | reflexivity ].
  now rewrite (lastLive_url _ _ _ Hlast).
Qed.

Lemma hosted_audio_from_manifest_witness :
  let env := Examples.localServer ["2024-12-25_Carol.mp3"] Examples.dec25 in
  let hosted := Manifest.hostedServer env (Return HostedExamples.manifest) in
  Rev2.audio hosted (Examples.request "2024-12-01_Old.mp3")
    = Json 404 (errorBody "File not found") /\
  Rev2.audio hosted (Examples.request "2099-01-01_Future.mp3")
    = Redirect (JStr "https://cdn.example/u1/future.mp3") /\
  Rev2.audio hosted (Examples.request "2024-12-25_Carol.mp3")
    = Stream (Some "audio/mpeg") "2024-12-25_Carol.mp3".
Proof.
  cbv zeta. split; [ | split ].
  - exact (hosted_audio_from_manifest
             (Examples.localServer ["2024-12-25_Carol.mp3"] Examples.dec25)
             (Examples.request "2024-12-01_Old.mp3")
             HostedExamples.manifest eq_refl eq_refl).
  - exact (hosted_audio_from_manifest
             (Examples.localServer ["2024-12-25_Carol.mp3"] Examples.dec25)
             (Examples.request "2099-01-01_Future.mp3")
             HostedExamples.manifest eq_refl eq_refl).
  - exact (hosted_audio_from_manifest
             (Examples.localServer ["2024-12-25_Carol.mp3"] Examples.dec25)
             (Examples.request "2024-12-25_Carol.mp3")
             HostedExamples.manifest eq_refl eq_refl).
Defined.

End HostedProperties.

(** ** The file-type table *)

Module SniffProperties.
Import Js Server Spec Vocabulary JsFacts ServerFacts HandlerFacts.
Import Sniff.

(** The mismatch warning is logged exactly when the detected type is MPEG
    audio or MP4 audio and the extension is not the matching one ([mp3],
    [m4a]); in particular a file detected as the type its supported
    extension declares never raises it, nor does a file no type was
    detected for. *)
Theorem mismatch_warning_iff (extension : string)
  (detected : result (option string)) :
  (warnsMismatch extension (getAudioFileType detected) = true <->
   (detected = Return (Some "audio/mpeg") /\ extension <> "mp3") \/
   (detected = Return (Some "audio/mp4") /\ extension <> "m4a")) /\
  (forall mime,
      lookup extension SUPPORTED_FORMATS = Some mime ->
      warnsMismatch extension (getAudioFileType (Return (Some mime))) = false).
Proof.
  assert (forall a, a <> EmptyString -> a <> "opus" ->
            (warnsMismatch extension (Some a) = true <-> extension <> a))
    as Hwarn.
  { intros a Ha Ho. unfold warnsMismatch.
    apply String.eqb_neq in Ha, Ho. rewrite Ha, Ho. cbn [negb andb].
    rewrite andb_true_r, negb_true_iff, String.eqb_neq.
    split; congruence. }
  assert (forall e, warnsMismatch e (Some "opus") = false) as Hopus.
  { intros e. unfold warnsMismatch. rewrite String.eqb_refl.
    cbn [negb]. now rewrite andb_false_r. }
  split.
  - unfold getAudioFileType. split.
    + destruct detected as [[mime |] | e]; try discriminate.
      destruct (lookup mime mimeTypeMap) as [actual |] eqn:E;
        [ | discriminate ].
      apply lookup_In in E. simpl in E.
      destruct E as [E | [E | [E | [E | [E | []]]]]]; inversion E; subst;
        try (rewrite Hopus; discriminate);
        intros H; apply Hwarn in H; try discriminate;
        [ left | right ]; (split; [ reflexivity | exact H ]).
    + intros [[-> H] | [-> H]]; cbn [lookup mimeTypeMap String.eqb Ascii.eqb
                                    Bool.eqb];
        apply Hwarn; try discriminate; exact H.
  - intros mime H. apply lookup_In in H. simpl in H.
    destruct H as [H | [H | [H | [H | [H | []]]]]]; inversion H; subst;
      reflexivity.
Qed.

End SniffProperties.
